(** * Nimm: the per-session state machine of [main.go]

    A shallow embedding of the bubbletea model of the game (the [model]
    struct, its [Update] method, the helpers [contains] and [available] and
    the layout arithmetic of [View]) together with the properties of the
    selection engine, the move controller and the centering rule.

    Conventions of the embedding:
    - Go's [int] is 64 bits wide; a value is a [Z] and every arithmetic
      operation on a struct field is followed by [wrap].  [uint(x)] is
      [to_uint].  Loop counters that count elements of a slice in memory
      ([sum], [n_available], [range] indices) are kept in [Z] unwrapped: they
      are bounded by the number of cells of the slice.
    - A slice is the list of its elements.  [marked_columns] is only ever
      assigned [nil] or the result of an [append], so the nil slice and the
      list [[]] coincide.
    - An index expression [s[i]] panics out of range: [index] returns
      [None].  [Update] therefore returns an [option]; [None] is a run-time
      panic.
    - [model.keys] is initialised with the package variable [keys] and never
      assigned; the embedding reads [keys] directly. *)

From stdpp Require Import base option list numbers strings.
From stdpp Require Import sorting pretty.

Local Open Scope Z_scope.

(** ** Machine integers *)

Definition int_min : Z := - 2 ^ 63.
Definition int_max : Z := 2 ^ 63 - 1.

(** Two's-complement wrap-around of a 64-bit signed result. *)
Definition wrap (z : Z) : Z := (z + 2 ^ 63) `mod` 2 ^ 64 - 2 ^ 63.

(** The conversion [uint(x)]. *)
Definition to_uint (z : Z) : Z := z `mod` 2 ^ 64.

(** ** Slices *)

(** [s[i]], with the bounds check of the run time. *)
Definition index {A : Type} (s : list A) (i : Z) : option A :=
  if 0 <=? i then s !! Z.to_nat i else None.

(** [field[r][c] = v]: both index expressions are checked. *)
Definition store (field : list (list bool)) (r c : Z) (v : bool)
  : option (list (list bool)) :=
  columns ← index field r;
  _ ← index columns c;
  Some (<[Z.to_nat r := <[Z.to_nat c := v]> columns]> field).

(** [sort.Slice(s, func(i, j) { return s[i] < s[j] })] on a slice of ints:
    the ascending arrangement, which is unique for a total order. *)
Fixpoint insert_sorted (x : Z) (s : list Z) : list Z :=
  match s with
  | [] => [x]
  | y :: s' => if x <=? y then x :: y :: s' else y :: insert_sorted x s'
  end.

Definition sort_Slice (s : list Z) : list Z := foldr insert_sorted [] s.

(** [append(s[0:1], s[len(s)-1:]...)] *)
Definition first_and_last (s : list Z) : list Z :=
  take 1 s ++ drop (length s - 1)%nat s.

(** ** Key bindings *)

Record Binding := { Keys : list string }.

Record keyMap := {
  Up : Binding; Down : Binding; Left : Binding; Right : Binding;
  Help : Binding; Quit : Binding; Submit : Binding; Select : Binding
}.

Definition keys : keyMap := {|
  Up := {| Keys := ["up"; "k"]%string |};
  Down := {| Keys := ["down"; "j"]%string |};
  Left := {| Keys := ["left"; "h"]%string |};
  Right := {| Keys := ["right"; "l"]%string |};
  Help := {| Keys := ["?"]%string |};
  Quit := {| Keys := ["q"; "esc"; "ctrl+c"]%string |};
  Submit := {| Keys := ["enter"]%string |};
  Select := {| Keys := [" "]%string |}
|}.

(** [key.Matches(msg, b)]: the name of the key is one of the binding's. *)
Definition key_Matches (k : string) (b : Binding) : bool :=
  existsb (String.eqb k) (Keys b).

(** ** The model *)

Record help_Model := { ShowAll : bool; Width : Z }.

(** [help.New()] *)
Definition help_New : help_Model := {| ShowAll := false; Width := 0 |}.

Record model := {
  term : string;
  width : Z;
  height : Z;
  time : Z;
  help : help_Model;
  field : list (list bool);
  row : Z;
  col : Z;
  rows : Z;
  cols : Z;
  marked_row : Z;
  marked_columns : list Z;
  player : Z
}.

Definition with_time (m : model) (t : Z) : model :=
  {| term := term m; width := width m; height := height m; time := t;
     help := help m; field := field m; row := row m; col := col m;
     rows := rows m; cols := cols m; marked_row := marked_row m;
     marked_columns := marked_columns m; player := player m |}.

Definition with_size (m : model) (w h : Z) : model :=
  {| term := term m; width := w; height := h; time := time m;
     help := {| ShowAll := ShowAll (help m); Width := w |};
     field := field m; row := row m; col := col m;
     rows := rows m; cols := cols m; marked_row := marked_row m;
     marked_columns := marked_columns m; player := player m |}.

Definition with_ShowAll (m : model) (b : bool) : model :=
  {| term := term m; width := width m; height := height m; time := time m;
     help := {| ShowAll := b; Width := Width (help m) |};
     field := field m; row := row m; col := col m;
     rows := rows m; cols := cols m; marked_row := marked_row m;
     marked_columns := marked_columns m; player := player m |}.

Definition with_row (m : model) (r : Z) : model :=
  {| term := term m; width := width m; height := height m; time := time m;
     help := help m; field := field m; row := r; col := col m;
     rows := rows m; cols := cols m; marked_row := marked_row m;
     marked_columns := marked_columns m; player := player m |}.

Definition with_col (m : model) (c : Z) : model :=
  {| term := term m; width := width m; height := height m; time := time m;
     help := help m; field := field m; row := row m; col := c;
     rows := rows m; cols := cols m; marked_row := marked_row m;
     marked_columns := marked_columns m; player := player m |}.

Definition with_marked_row (m : model) (r : Z) : model :=
  {| term := term m; width := width m; height := height m; time := time m;
     help := help m; field := field m; row := row m; col := col m;
     rows := rows m; cols := cols m; marked_row := r;
     marked_columns := marked_columns m; player := player m |}.

Definition with_marked_columns (m : model) (s : list Z) : model :=
  {| term := term m; width := width m; height := height m; time := time m;
     help := help m; field := field m; row := row m; col := col m;
     rows := rows m; cols := cols m; marked_row := marked_row m;
     marked_columns := s; player := player m |}.

(** The state after an accepted move (lines 222-233): the board with the
    range cleared, cursor and selection reset, the other player to move. *)
Definition after_move (m : model) (field' : list (list bool)) : model :=
  {| term := term m; width := width m; height := height m; time := time m;
     help := help m; field := field'; row := 0; col := 0;
     rows := rows m; cols := cols m; marked_row := rows m;
     marked_columns := [];
     player := wrap (Z.rem (player m) 2 + 1) |}.

(** The model built by [teaHandler] for a session whose pty reports the
    terminal type [t] and a [w] x [h] window, at instant [now]. *)
Definition initial_model (t : string) (w h now : Z) : model :=
  {| term := t; width := w; height := h; time := now; help := help_New;
     field := [ [false; false; false; true; false; false; false];
                [false; false; true; true; true; false; false];
                [false; true; true; true; true; true; false];
                [true; true; true; true; true; true; true] ];
     row := 0; col := 0; rows := 4; cols := 7;
     marked_row := 0; marked_columns := []; player := 1 |}.

(** ** Messages and commands *)

Inductive Msg :=
| timeMsg (t : Z)
| WindowSizeMsg (w h : Z)
| KeyMsg (k : string)
| OtherMsg.

Inductive Cmd := CmdNil | CmdQuit.

(** ** [available] and [contains] *)

Definition available (field : list (list bool)) : Z :=
  fold_left
    (fun sum columns =>
       fold_left (fun sum (c : bool) => if c then sum + 1 else sum) columns sum)
    field 0.

Definition contains (s : list Z) (e : Z) : bool :=
  if (length s =? 1)%nat then
    match s with e0 :: _ => e =? e0 | [] => false end
  else if (length s =? 2)%nat then
    match s with
    | e0 :: e1 :: _ => (e >=? e0) && (e <=? e1)
    | _ => false
    end
  else false.

(** ** [Update], the submit key (lines 201-234) *)

(** The test [row == m.marked_row && col >= m.marked_columns[0] &&
    col <= m.marked_columns[1]]; [&&] evaluates its right operand, and so
    the index expression in it, only when the left one holds. *)
Definition in_marked (m : model) (r c : Z) : option bool :=
  if r =? marked_row m then
    c0 ← index (marked_columns m) 0;
    if c >=? c0 then
      c1 ← index (marked_columns m) 1;
      Some (c <=? c1)
    else Some false
  else Some false.

(** The inner [range] loop over the columns of row [r], from column [c]. *)
Fixpoint count_columns (m : model) (r : Z) (columns : list bool) (c : Z)
    (n_available : Z) : option Z :=
  match columns with
  | [] => Some n_available
  | avail :: rest =>
      if negb avail then count_columns m r rest (c + 1) n_available
      else
        skip ← in_marked m r c;
        if skip : bool then count_columns m r rest (c + 1) n_available
        else count_columns m r rest (c + 1) (n_available + 1)
  end.

(** The outer [range] loop over the rows, from row [r]. *)
Fixpoint count_rows (m : model) (fld : list (list bool)) (r : Z)
    (n_available : Z) : option Z :=
  match fld with
  | [] => Some n_available
  | columns :: rest =>
      n ← count_columns m r columns 0 n_available;
      count_rows m rest (r + 1) n
  end.

(** [n_available] after the two loops of lines 206-217. *)
Definition count_remaining (m : model) : option Z :=
  count_rows m (field m) 0 0.

(** [for col := lo; col <= hi; col++ { field[r][col] = false }], run for its
    [n] iterations starting at column [c]. *)
Fixpoint clear_loop (fld : list (list bool)) (r c : Z) (n : nat)
  : option (list (list bool)) :=
  match n with
  | O => Some fld
  | S n' => fld' ← store fld r c false; clear_loop fld' r (c + 1) n'
  end.

Definition Update_Submit (m : model) : option (model * Cmd) :=
  match marked_columns m with
  | [] => Some (m, CmdNil)
  | _ =>
      n_available ← count_remaining m;
      if n_available =? 0 then Some (m, CmdNil)
      else
        lo ← index (marked_columns m) 0;
        hi ← index (marked_columns m) 1;
        field' ← clear_loop (field m) (marked_row m) lo (Z.to_nat (hi - lo + 1));
        Some (after_move m field', CmdNil)
  end.

(** ** [Update], the select key (lines 235-260) *)

Definition Update_Select (m : model) : option (model * Cmd) :=
  columns ← index (field m) (row m);
  avail ← index columns (col m);
  if negb avail then Some (m, CmdNil)
  else
    let m1 :=
      if negb (marked_row m =? row m) then with_marked_columns m [] else m in
    let m2 := with_marked_row m1 (row m) in
    cancel ←
      (if (0 <? length (marked_columns m2))%nat then
         c0 ← index (marked_columns m2) 0;
         if col m2 >=? c0 then
           c1 ← index (marked_columns m2) 1;
           Some (col m2 <=? c1)
         else Some false
       else Some false);
    if cancel : bool then Some (with_marked_columns m2 [], CmdNil)
    else
      let appended := marked_columns m2 ++ [col m2] in
      let sorted := sort_Slice appended in
      Some (with_marked_columns m2 (first_and_last sorted), CmdNil).

(** ** [Update] *)

Definition Update (m : model) (msg : Msg) : option (model * Cmd) :=
  match msg with
  | timeMsg t => Some (with_time m t, CmdNil)
  | WindowSizeMsg w h => Some (with_size m w h, CmdNil)
  | KeyMsg k =>
      if key_Matches k (Quit keys) then Some (m, CmdQuit)
      else if key_Matches k (Submit keys) then Update_Submit m
      else if key_Matches k (Select keys) then Update_Select m
      else if key_Matches k (Down keys) then
        let r := wrap (row m + 1) in
        Some (with_row m (if r >? wrap (rows m - 2) then wrap (rows m - 1) else r),
              CmdNil)
      else if key_Matches k (Up keys) then
        let r := wrap (row m - 1) in
        Some (with_row m (if r <? 0 then 0 else r), CmdNil)
      else if key_Matches k (Right keys) then
        let c := wrap (col m + 1) in
        Some (with_col m (if c >? wrap (cols m - 2) then wrap (cols m - 1) else c),
              CmdNil)
      else if key_Matches k (Left keys) then
        let c := wrap (col m - 1) in
        Some (with_col m (if c <? 0 then 0 else c), CmdNil)
      else if key_Matches k (Help keys) then
        Some (with_ShowAll m (negb (ShowAll (help m))), CmdNil)
      else Some (m, CmdNil)
  | OtherMsg => Some (m, CmdNil)
  end.

(** Modelled from the spec: the event loop is bubbletea's and is not under
    src/.  By the spec (sections 4.4 and 5) the loop handles the messages one
    at a time in arrival order, and the quit key ends the session; a panic
    ends the program.  [Update] only returns the command [tea.Quit]; the real
    loop may still handle messages queued behind the quit key before it
    stops.  A quit key leaves the model as it is, so the runs of the real
    loop are runs of message lists without quit keys. *)
Fixpoint run (m : model) (msgs : list Msg) : option model :=
  match msgs with
  | [] => Some m
  | msg :: rest =>
      match Update m msg with
      | None => None
      | Some (m', CmdQuit) => Some m'
      | Some (m', CmdNil) => run m' rest
      end
  end.

(** The states a session can be in. *)
Inductive reachable : model -> Prop :=
| reachable_initial t w h now : reachable (initial_model t w h now)
| reachable_step m msg m' cmd :
    reachable m -> Update m msg = Some (m', cmd) -> reachable m'.

(** ** [View]: the layout of the frame

    The frame is a string with terminal escape sequences produced by the
    styling library; the embedding keeps what [View] itself decides: the
    texts, the indentation handed to [indent.String] for each block, the
    status line, for every cell of the board its glyph and the two style
    tests, the number of blank lines before the help, and the margin of the
    whole frame.

    The text-layout code that [View] calls is not under src/ (reflow's
    [indent] and [wordwrap], bubbles' [help], Go's [strings]).  Modelled
    from their sources:
    - [indent.String(s, n)] puts [strings.Repeat(" ", n)] before each line
      of a non-empty [s]; [strings.Repeat(s, n)] allocates the [n] copies,
      and the run time panics ("makeslice: len out of range") when the
      length exceeds [maxAlloc], 2^48 bytes on 64-bit Linux.  Running out of
      memory below that length ends the process without a panic and is not
      modelled.
    - The title, the status line and the help view are not empty (the help
      view keeps its first binding from 13 columns on, and [help.Width] is 0
      or the width of the window).
    - The numbers of newlines in the wrapped rules paragraph and in the help
      view are results of these libraries: [layout_libs]. *)

Definition maxAlloc : Z := 2 ^ 48.

(** The indentation [indent.String] writes before the lines of a non-empty
    string, or a panic. *)
Definition indent_String (n : Z) : option Z :=
  if n <=? maxAlloc then Some n else None.

(** The length of [strings.Repeat("\n", count)], or a panic. *)
Definition strings_Repeat (count : Z) : option Z :=
  if count <? 0 then None
  else if count <=? maxAlloc then Some count else None.

Record layout_libs := {
  (* strings.Count(indent.String(wordwrap.String(rules, limit), 4), "\n") *)
  wordwrap_newlines : Z -> Z;
  (* strings.Count(m.help.View(m.keys), "\n") *)
  help_newlines : help_Model -> Z
}.

(** The counts are lengths of strings in memory. *)
Definition lib_ok (lib : layout_libs) : Prop :=
  (forall limit, 0 <= wordwrap_newlines lib limit <= maxAlloc) /\
  (forall h, 0 <= help_newlines lib h <= maxAlloc).

Inductive status_line :=
| PlayerLost (p : Z)     (* "Player %d lost  " *)
| PlayersTurn (p : Z).   (* "Player %d's turn" *)

(** [fmt.Sprintf] of the two status formats. *)
Definition status_text (st : status_line) : string :=
  match st with
  | PlayerLost p => "Player " +:+ pretty p +:+ " lost  "
  | PlayersTurn p => "Player " +:+ pretty p +:+ "'s turn"
  end.

Record cell_view := {
  cursor_style : bool;   (* bold on the highlight background *)
  marked_style : bool;   (* foreground colour 5 *)
  mark : string
}.

Definition view_cell (m : model) (r c : Z) : option cell_view :=
  let at_cursor := (r =? row m) && (c =? col m) in
  let in_selection := (r =? marked_row m) && contains (marked_columns m) c in
  columns ← index (field m) r;
  avail ← index columns c;
  Some {| cursor_style := at_cursor; marked_style := in_selection;
          mark := if avail : bool then "X" else " " |}.


Record frame := {
  margin : Z;                     (* the indent of the whole frame, line 357 *)
  title : string;
  title_indent : Z;
  rules_limit : Z;                (* the limit handed to wordwrap.String *)
  rules_indent : Z;
  status : status_line;
  status_indent : Z;
  game : list (list cell_view);
  game_indent : Z;
  help_indent : Z;
  blank_lines : Z                 (* strings.Repeat("\n", height) *)
}.

Definition View (lib : layout_libs) (m : model) : option frame :=
  title_pad ← indent_String (to_uint (wrap (width m - 11)) / 2);
  let limit := wrap (width m - 12) in
  let st := if available (field m) =? 1 then PlayerLost (player m)
            else PlayersTurn (player m) in
  status_pad ← indent_String (to_uint (wrap (width m - 15)) / 2);
  cells ← mapM (fun r => mapM (view_cell m r) (seqZ 0 (cols m)))
               (seqZ 0 (rows m));
  game_pad ←
    (match cells with
     | [] => Some (to_uint (wrap (width m - 24)) / 2)   (* game is "" *)
     | _ => indent_String (to_uint (wrap (width m - 24)) / 2)
     end);
  help_pad ← indent_String (if ShowAll (help m)
                            then to_uint (wrap (width m - 34)) / 2
                            else to_uint (wrap (width m - 24)) / 2);
  let count_s := 6 + wordwrap_newlines lib limit + Z.of_nat (length cells) in
  let height := wrap (wrap (wrap (height m - 4) - count_s)
                      - help_newlines lib (help m)) in
  let height := if height <? 0 then 0 else height in
  blank ← strings_Repeat height;
  _ ← indent_String 2;
  Some {| margin := 2;
          title := "== Nimm ==";
          title_indent := title_pad;
          rules_limit := limit;
          rules_indent := 4;
          status := st;
          status_indent := status_pad;
          game := cells;
          game_indent := game_pad;
          help_indent := help_pad;
          blank_lines := blank |}.

(** ** Predicates used by the specification *)

(** The flag of cell [(r, c)], [None] outside the board. *)
Definition cell (fld : list (list bool)) (r c : Z) : option bool :=
  columns ← index fld r; index columns c.

(** Column [c] of row [r] lies in the range [[lo, hi]] of row [mr]. *)
Definition selected (mr lo hi r c : Z) : bool :=
  (r =? mr) && (lo <=? c) && (c <=? hi).

(** Number of present cells kept by [keep], columns numbered from [c]. *)
Fixpoint count_keep_columns (keep : Z -> bool) (columns : list bool) (c : Z)
  : Z :=
  match columns with
  | [] => 0
  | b :: rest =>
      (if b && keep c then 1 else 0) + count_keep_columns keep rest (c + 1)
  end.

(** Number of present cells kept by [keep], rows numbered from [r]. *)
Fixpoint count_keep (keep : Z -> Z -> bool) (fld : list (list bool)) (r : Z)
  : Z :=
  match fld with
  | [] => 0
  | columns :: rest =>
      count_keep_columns (keep r) columns 0 + count_keep keep rest (r + 1)
  end.

(** The board with the cells chosen by [sel] made absent. *)
Fixpoint clear_columns (sel : Z -> bool) (columns : list bool) (c : Z)
  : list bool :=
  match columns with
  | [] => []
  | b :: rest =>
      (if sel c then false else b) :: clear_columns sel rest (c + 1)
  end.

Fixpoint clear_cells (sel : Z -> Z -> bool) (fld : list (list bool)) (r : Z)
  : list (list bool) :=
  match fld with
  | [] => []
  | columns :: rest =>
      clear_columns (sel r) columns 0 :: clear_cells sel rest (r + 1)
  end.

(** The board is a [rows] x [cols] rectangle of sizes an [int] holds. *)
Definition shape_ok (m : model) : Prop :=
  Z.of_nat (length (field m)) = rows m /\
  Forall (fun columns => Z.of_nat (length columns) = cols m) (field m) /\
  0 < rows m <= int_max /\ 0 < cols m <= int_max.

Definition cursor_ok (m : model) : Prop :=
  0 <= row m < rows m /\ 0 <= col m < cols m.

(** The selection is empty, or an ascending pair of columns of the board on
    a row of the board. *)
Definition selection_ok (m : model) : Prop :=
  match marked_columns m with
  | [] => True
  | [lo; hi] =>
      lo <= hi /\ 0 <= lo /\ hi <= cols m - 1 /\
      0 <= marked_row m < rows m
  | _ => False
  end.

Definition wf (m : model) : Prop :=
  shape_ok m /\ cursor_ok m /\ selection_ok m.

(** Both ends of a selection are present cells. *)
Definition ends_present (m : model) : Prop :=
  match marked_columns m with
  | [lo; hi] =>
      cell (field m) (marked_row m) lo = Some true /\
      cell (field m) (marked_row m) hi = Some true
  | _ => True
  end.

(** The present cells of [columns] are exactly its last [k] cells. *)
Definition right_aligned (columns : list bool) (k : nat) : bool :=
  bool_decide (columns = replicate (length columns - k) false ++ replicate k true).

(** The present cells of [columns] are exactly the [k] cells in its middle. *)
Definition centered (columns : list bool) (k : nat) : bool :=
  bool_decide (columns =
    replicate ((length columns - k) / 2) false ++ replicate k true ++
    replicate ((length columns - k) / 2) false).

(** Number of present cells of one row. *)
Definition present_in (columns : list bool) : Z :=
  Z.of_nat (length (filter (fun b => b = true) columns)).

(** The selection is empty or is an ascending pair of columns of the board,
    on a row of the board. *)
Definition empty_or_pair (m : model) : Prop :=
  marked_columns m = [] \/
  exists lo hi,
    marked_columns m = [lo; hi] /\ lo <= hi /\
    0 <= lo <= cols m - 1 /\ 0 <= hi <= cols m - 1 /\
    0 <= marked_row m <= rows m - 1.

(** ** The rest of the program: help lists, [Init], the session handler *)

(** [keyMap.ShortHelp] *)
Definition ShortHelp (k : keyMap) : list Binding := [Help k; Quit k].

(** [keyMap.FullHelp]: the two columns of the expanded help. *)
Definition FullHelp (k : keyMap) : list (list Binding) :=
  [ [Up k; Down k; Left k; Right k];
    [Select k; Submit k; Help k; Quit k] ].

(** [model.Init] *)
Definition Init (m : model) : Cmd := CmdNil.

(** What [teaHandler] reads from [s.Pty()]. *)
Record Pty := { Term : string; Window_Width : Z; Window_Height : Z }.

(** [teaHandler]: without an active terminal there is no program ([None]
    stands for the [nil] it returns); with one, the program starts on the
    model of lines 144-160, [time.Now()] being [now]. *)
Definition teaHandler (pty : Pty) (active : bool) (now : Z) : option model :=
  if negb active then None
  else Some (initial_model (Term pty) (Window_Width pty) (Window_Height pty)
               now).

(** ** Further notions for the properties of the state machine *)

(** The part of the model the game is played on. *)
Definition game_part (m : model)
  : list (list bool) * Z * Z * Z * Z * Z * list Z * Z :=
  (field m, row m, col m, rows m, cols m, marked_row m, marked_columns m,
   player m).

(** Number of messages of [msgs] that change the board when the event loop
    handles them from [m]: the moves played. *)
Fixpoint moves_played (m : model) (msgs : list Msg) : nat :=
  match msgs with
  | [] => 0
  | msg :: rest =>
      match Update m msg with
      | Some (m', CmdNil) =>
          ((if bool_decide (field m' = field m) then 0 else 1)
           + moves_played m' rest)%nat
      | _ => 0%nat
      end
  end.

(** The keys that bring the cursor of [m] to the cell [(r, c)]. *)
Definition go_to (m : model) (r c : Z) : list Msg :=
  replicate (Z.to_nat (row m - r)) (KeyMsg "up") ++
  replicate (Z.to_nat (r - row m)) (KeyMsg "down") ++
  replicate (Z.to_nat (col m - c)) (KeyMsg "left") ++
  replicate (Z.to_nat (c - col m)) (KeyMsg "right").

(** No message of the list is a quit key. *)
Definition no_quit (msgs : list Msg) : Prop :=
  Forall (fun msg => forall k, msg = KeyMsg k -> ~ In k (Keys (Quit keys)))
    msgs.

(** The keys of the longest game: the cells of the board are taken one at
    a time, the cell (0,3) being left; after each move the cursor is back at
    (0,0). *)
Definition one_by_one : list string :=
  flat_map
    (fun '(r, c) =>
       replicate r "down"%string ++ replicate c "right"%string ++
       [" "; "enter"]%string)
    [ (1, 2); (1, 3); (1, 4);
      (2, 1); (2, 2); (2, 3); (2, 4); (2, 5);
      (3, 0); (3, 1); (3, 2); (3, 3); (3, 4); (3, 5); (3, 6) ]%nat.

(** ** Proof tactics *)

(** Boolean comparisons in hypotheses become propositions for [lia]. *)
Ltac bool_to_prop :=
  repeat match goal with
  | H : (_ <=? _) = true |- _ => apply Z.leb_le in H
  | H : (_ <=? _) = false |- _ => apply Z.leb_gt in H
  | H : (_ <? _) = true |- _ => apply Z.ltb_lt in H
  | H : (_ <? _) = false |- _ => apply Z.ltb_ge in H
  | H : (_ >=? _) = true |- _ => rewrite Z.geb_leb in H; apply Z.leb_le in H
  | H : (_ >=? _) = false |- _ => rewrite Z.geb_leb in H; apply Z.leb_gt in H
  | H : (_ >? _) = true |- _ => rewrite Z.gtb_ltb in H; apply Z.ltb_lt in H
  | H : (_ >? _) = false |- _ => rewrite Z.gtb_ltb in H; apply Z.ltb_ge in H
  | H : (_ =? _) = true |- _ => apply Z.eqb_eq in H
  | H : (_ =? _) = false |- _ => apply Z.eqb_neq in H
  | H : (_ && _) = true |- _ => apply andb_prop in H; destruct H
  | H : negb _ = true |- _ => apply negb_true_iff in H
  | H : negb _ = false |- _ => apply negb_false_iff in H
  end.

(** Case analysis on the key tests of [Update] in hypothesis [H]. *)
Ltac key_cases H :=
  unfold Update in H;
  repeat match type of H with
  | (if key_Matches ?k ?b then _ else _) = _ =>
      let E := fresh "Hkey" in destruct (key_Matches k b) eqn:E
  end.

(** Closes a goal whose [decide] hypotheses contradict each other. *)
Ltac decide_contra :=
  exfalso;
  repeat match goal with H : _ /\ _ |- _ => destruct H end;
  first [ lia | congruence
        | match goal with
          | H : ~ _ |- _ =>
              apply H; repeat split; first [lia | done | congruence]
          end ].

(** ** Windows and library results for the properties of [View] *)

(** The largest number of columns or rows a window reports: the [winsize]
    of a terminal holds them in 16 bits. *)
Definition max_window : Z := 65535.

(** Sample results of the layout libraries: the rules wrap onto six lines,
    the short help is one line and the full help four. *)
Definition sample_lib : layout_libs :=
  {| wordwrap_newlines := fun _ => 5;
     help_newlines := fun h => if ShowAll h then 3 else 0 |}.

(** ** Sample sessions *)

(** A state of the session of an 80 x 24 xterm, given by its game part. *)
Definition game_state (fld : list (list bool)) (r c mr : Z) (mc : list Z)
    (p : Z) : model :=
  {| term := "xterm"; width := 80; height := 24; time := 0; help := help_New;
     field := fld; row := r; col := c; rows := 4; cols := 7;
     marked_row := mr; marked_columns := mc; player := p |}.

Definition session0 : model := initial_model "xterm" 80 24 0.

(** The session after the window was resized to 20 columns. *)
Definition narrow : model := with_size session0 20 24.

Definition press (ks : list string) : list Msg := KeyMsg <$> ks.

(** Player 1 takes cell (3,1); player 2 then selects (3,0) and moves the
    cursor to (3,2). *)
Definition gap_keys : list string :=
  ["down"; "down"; "down"; "right"; " "; "enter";
   "down"; "down"; "down"; " "; "right"; "right"]%string.

Definition board_with_gap : list (list bool) :=
  [ [false; false; false; true; false; false; false];
    [false; false; true; true; true; false; false];
    [false; true; true; true; true; true; false];
    [true; false; true; true; true; true; true] ].

Definition before_extend : model := game_state board_with_gap 3 2 3 [0; 0] 2.

(** ... then selects (3,2) and moves the cursor back onto the gap (3,1). *)
Definition on_gap : model := game_state board_with_gap 3 1 3 [0; 2] 2.

(** On the fresh board: select (3,0) and (3,2), then move to (3,1) ... *)
Definition inside_range : model :=
  game_state (field session0) 3 1 3 [0; 2] 1.

(** ... or up to the absent cell (0,2) of the top row. *)
Definition other_row : model :=
  game_state (field session0) 0 2 3 [0; 2] 1.

(** Three moves take the rows 3, 2 and 1 whole; the cell (0,3) is left. *)
Definition endgame_keys : list string :=
  ["down"; "down"; "down"; " "; "right"; "right"; "right"; "right"; "right";
   "right"; " "; "enter";
   "down"; "down"; "right"; " "; "right"; "right"; "right"; "right"; " ";
   "enter";
   "down"; "right"; "right"; " "; "right"; "right"; " "; "enter"]%string.

Definition last_cell_board : list (list bool) :=
  [ [false; false; false; true; false; false; false];
    [false; false; false; false; false; false; false];
    [false; false; false; false; false; false; false];
    [false; false; false; false; false; false; false] ].

Definition last_cell : model := game_state last_cell_board 0 0 4 [] 2.

(** The player to move has put the cursor on the last cell and selected it. *)
Definition last_cell_selected : model :=
  game_state last_cell_board 0 3 0 [3; 3] 2.

(** ** Sentences of the specification, as they are written *)

(** "Toggling selection at a cursor position that lies on markedRow within
    the current non-empty range clears the selection entirely." *)
Definition cancel_law_as_stated : Prop :=
  forall m lo hi,
    reachable m -> marked_columns m = [lo; hi] -> row m = marked_row m ->
    lo <= col m <= hi ->
    exists m' cmd,
      Update m (KeyMsg " ") = Some (m', cmd) /\ marked_columns m' = [].

(** "Any toggle on a row different from markedRow first empties the range
    before starting a new one." *)
Definition row_change_as_stated : Prop :=
  forall m,
    reachable m -> row m <> marked_row m ->
    exists m' cmd,
      Update m (KeyMsg " ") = Some (m', cmd) /\
      (marked_columns m' = [] \/
       (marked_row m' = row m /\ marked_columns m' = [col m; col m])).

(** "Row i contains 2*i+1 available cells, right-aligned within a common
    column count (7)." *)
Definition initial_shape_as_stated : Prop :=
  forall t w h now (i : nat) columns,
    field (initial_model t w h now) !! i = Some columns ->
    length columns = 7%nat /\
    present_in columns = 2 * Z.of_nat i + 1 /\
    right_aligned columns (2 * i + 1) = true.

(** "For every state with a non-empty selection on the cursor's row,
    toggling selection at a present cell whose column lies outside [lo, hi]
    replaces the range by [min(lo, col), max(hi, col)]; a first toggle on a
    fresh row produces the degenerate pair [col, col]." *)
Definition extend_law_as_stated : Prop :=
  forall m,
    reachable m ->
    (forall lo hi,
       marked_columns m = [lo; hi] -> marked_row m = row m -> lo <= hi ->
       cell (field m) (row m) (col m) = Some true ->
       col m < lo \/ hi < col m ->
       exists m' cmd,
         Update m (KeyMsg " ") = Some (m', cmd) /\
         marked_columns m' = [Z.min lo (col m); Z.max hi (col m)]) /\
    (marked_row m <> row m \/ marked_columns m = [] ->
     exists m' cmd,
       Update m (KeyMsg " ") = Some (m', cmd) /\
       marked_columns m' = [col m; col m]).


(** ** Checks of the embedding on the scenarios of the game *)

Example scenario_1 :
  (m' ← run (initial_model "xterm" 80 24 0)
        [KeyMsg "down"; KeyMsg "down"; KeyMsg "down"; KeyMsg " "; KeyMsg " "];
   Some (field m', marked_columns m', player m'))
  = Some (field (initial_model "xterm" 80 24 0), [], 1).
Proof. vm_compute. reflexivity. Qed.

Example scenario_2 :
  (m' ← run (initial_model "xterm" 80 24 0)
        [KeyMsg "down"; KeyMsg "down"; KeyMsg "down"; KeyMsg " ";
         KeyMsg "l"; KeyMsg "l"; KeyMsg " "; KeyMsg "enter"];
   Some (field m', row m', col m', marked_columns m', player m'))
  = Some ([ [false; false; false; true; false; false; false];
            [false; false; true; true; true; false; false];
            [false; true; true; true; true; true; false];
            [false; false; false; true; true; true; true] ],
          0, 0, [], 2).
Proof. vm_compute. reflexivity. Qed.

Example scenario_4 :
  (m1 ← run (initial_model "xterm" 80 24 0)
        [KeyMsg "j"; KeyMsg "j"; KeyMsg "l"; KeyMsg " ";
         KeyMsg "l"; KeyMsg "l"; KeyMsg "l"; KeyMsg " "];
   m2 ← run m1 [KeyMsg "h"; KeyMsg "h"; KeyMsg " "];
   Some (marked_columns m1, marked_columns m2))
  = Some ([1; 4], []).
Proof. vm_compute. reflexivity. Qed.

Example view_initial :
  (f ← View sample_lib (initial_model "xterm" 80 24 0);
   Some (margin f, title_indent f, status_text (status f), status_indent f,
         game_indent f, help_indent f, length (game f), blank_lines f))
  = Some (2, 34, "Player 1's turn"%string, 32, 28, 28, 4%nat, 5).
Proof. vm_compute. reflexivity. Qed.

Example view_narrow : View sample_lib narrow = None.
Proof. vm_compute. reflexivity. Qed.

(** * Properties *)

(** ** Machine integers and slices *)

Lemma wrap_id (z : Z) : int_min <= z <= int_max -> wrap z = z.
Proof.
  unfold int_min, int_max, wrap. intros Hz.
  rewrite Z.mod_small; lia.
Qed.

Lemma to_uint_wrap (z : Z) : to_uint (wrap z) = z `mod` 2 ^ 64.
Proof.
  unfold to_uint, wrap.
  replace ((z + 2 ^ 63) `mod` 2 ^ 64 - 2 ^ 63)
    with ((z + 2 ^ 63) `mod` 2 ^ 64 + (- 2 ^ 63)) by lia.
  rewrite Zplus_mod_idemp_l. f_equal. lia.
Qed.

Lemma index_Some {A : Type} (s : list A) (i : Z) (x : A) :
  index s i = Some x <-> 0 <= i /\ s !! Z.to_nat i = Some x.
Proof.
  unfold index. destruct (0 <=? i) eqn:E; bool_to_prop; split.
  - auto.
  - tauto.
  - discriminate.
  - lia.
Qed.

Lemma index_lt {A : Type} (s : list A) (i : Z) (x : A) :
  index s i = Some x -> 0 <= i < Z.of_nat (length s).
Proof.
  intros [Hi Hl]%index_Some. apply lookup_lt_Some in Hl. lia.
Qed.

Lemma index_is_Some {A : Type} (s : list A) (i : Z) :
  0 <= i < Z.of_nat (length s) -> is_Some (index s i).
Proof.
  intros Hi. unfold index.
  destruct (0 <=? i) eqn:E; bool_to_prop; [|lia].
  apply lookup_lt_is_Some. lia.
Qed.

Lemma first_and_last_single (c : Z) :
  first_and_last (sort_Slice ([] ++ [c])) = [c; c].
Proof. reflexivity. Qed.

Lemma first_and_last_extend (lo hi c : Z) :
  lo <= hi -> c < lo \/ hi < c ->
  first_and_last (sort_Slice ([lo; hi] ++ [c])) = [Z.min lo c; Z.max hi c].
Proof.
  intros Hle Hout. cbn.
  destruct (hi <=? c) eqn:E1; cbn;
    destruct (lo <=? c) eqn:E2; cbn; try destruct (lo <=? hi) eqn:E3; cbn;
    bool_to_prop; unfold first_and_last; cbn; f_equal; try f_equal; lia.
Qed.

(** ** Counting cells *)

Lemma count_keep_columns_nonneg keep columns c :
  0 <= count_keep_columns keep columns c.
Proof.
  revert c. induction columns as [|b rest IH]; intros c; cbn; [lia|].
  specialize (IH (c + 1)). destruct (b && keep c); lia.
Qed.

Lemma count_keep_nonneg keep fld r : 0 <= count_keep keep fld r.
Proof.
  revert r. induction fld as [|columns rest IH]; intros r; cbn; [lia|].
  specialize (IH (r + 1)).
  pose proof (count_keep_columns_nonneg (keep r) columns 0). lia.
Qed.

Lemma count_keep_columns_ext keep keep' columns c :
  (forall j, keep j = keep' j) ->
  count_keep_columns keep columns c = count_keep_columns keep' columns c.
Proof.
  intros Hext. revert c.
  induction columns as [|b rest IH]; intros c; cbn; [done|].
  by rewrite Hext, IH.
Qed.

Lemma count_keep_ext keep keep' fld r :
  (forall i j, keep i j = keep' i j) ->
  count_keep keep fld r = count_keep keep' fld r.
Proof.
  intros Hext. revert r.
  induction fld as [|columns rest IH]; intros r; cbn; [done|].
  rewrite IH. f_equal. by apply count_keep_columns_ext.
Qed.

(** Splitting the present cells by a test. *)
Lemma count_keep_columns_split keep columns c :
  count_keep_columns (fun _ => true) columns c =
  count_keep_columns keep columns c +
  count_keep_columns (fun j => negb (keep j)) columns c.
Proof.
  revert c. induction columns as [|b rest IH]; intros c; cbn; [done|].
  rewrite IH. destruct b, (keep c); cbn; lia.
Qed.

Lemma count_keep_split keep fld r :
  count_keep (fun _ _ => true) fld r =
  count_keep keep fld r + count_keep (fun i j => negb (keep i j)) fld r.
Proof.
  revert r. induction fld as [|columns rest IH]; intros r; cbn; [done|].
  rewrite IH, (count_keep_columns_split (keep r)). lia.
Qed.

(** A present cell that passes the test is counted. *)
Lemma count_keep_columns_pos keep columns c0 j :
  columns !! j = Some true -> keep (c0 + Z.of_nat j) = true ->
  1 <= count_keep_columns keep columns c0.
Proof.
  revert c0 j. induction columns as [|b rest IH]; intros c0 j Hj Hk; [done|].
  cbn. destruct j as [|j]; cbn in Hj.
  - injection Hj as ->. replace (c0 + Z.of_nat 0) with c0 in Hk by lia.
    rewrite Hk. cbn. pose proof (count_keep_columns_nonneg keep rest (c0 + 1)).
    lia.
  - specialize (IH (c0 + 1) j Hj).
    replace (c0 + 1 + Z.of_nat j) with (c0 + Z.of_nat (S j)) in IH by lia.
    specialize (IH Hk). destruct (b && keep c0); lia.
Qed.

Lemma count_keep_pos keep fld r0 i columns j :
  fld !! i = Some columns -> columns !! j = Some true ->
  keep (r0 + Z.of_nat i) (Z.of_nat j) = true ->
  1 <= count_keep keep fld r0.
Proof.
  revert r0 i. induction fld as [|cs rest IH]; intros r0 i Hi Hj Hk; [done|].
  cbn. destruct i as [|i]; cbn in Hi.
  - injection Hi as ->. replace (r0 + Z.of_nat 0) with r0 in Hk by lia.
    pose proof (count_keep_columns_pos (keep r0) columns 0 j Hj Hk).
    pose proof (count_keep_nonneg keep rest (r0 + 1)). lia.
  - specialize (IH (r0 + 1) i Hi Hj).
    replace (r0 + 1 + Z.of_nat i) with (r0 + Z.of_nat (S i)) in IH by lia.
    specialize (IH Hk).
    pose proof (count_keep_columns_nonneg (keep r0) cs 0). lia.
Qed.

(** [available] counts every present cell. *)
Lemma available_columns columns sum c :
  fold_left (fun sum (b : bool) => if b then sum + 1 else sum) columns sum =
  sum + count_keep_columns (fun _ => true) columns c.
Proof.
  revert sum c. induction columns as [|b rest IH]; intros sum c; cbn; [lia|].
  rewrite (IH _ (c + 1)). destruct b; cbn; lia.
Qed.

Lemma available_rows fld sum r :
  fold_left
    (fun sum columns =>
       fold_left (fun sum (c : bool) => if c then sum + 1 else sum) columns sum)
    fld sum = sum + count_keep (fun _ _ => true) fld r.
Proof.
  revert sum r. induction fld as [|columns rest IH]; intros sum r; cbn; [lia|].
  rewrite (IH _ (r + 1)), (available_columns columns sum 0). lia.
Qed.

Lemma available_count fld : available fld = count_keep (fun _ _ => true) fld 0.
Proof. unfold available. by rewrite (available_rows fld 0 0). Qed.

Lemma available_nonneg fld : 0 <= available fld.
Proof. rewrite available_count. apply count_keep_nonneg. Qed.

(** The loops of the submit key count the present cells outside the
    selection, whenever the selection has its two ends. *)
Lemma in_marked_pair m lo hi more r c :
  marked_columns m = lo :: hi :: more ->
  in_marked m r c = Some (selected (marked_row m) lo hi r c).
Proof.
  intros Hmc. unfold in_marked, selected. rewrite Hmc.
  change (index (lo :: hi :: more) 0) with (Some lo).
  change (index (lo :: hi :: more) 1) with (Some hi).
  cbn [mbind option_bind]. rewrite Z.geb_leb.
  destruct (r =? marked_row m), (lo <=? c); done.
Qed.

Lemma count_columns_pair m lo hi more r columns c n :
  marked_columns m = lo :: hi :: more ->
  count_columns m r columns c n =
  Some (n + count_keep_columns
              (fun j => negb (selected (marked_row m) lo hi r j)) columns c).
Proof.
  intros Hmc. revert c n.
  induction columns as [|b rest IH]; intros c n; cbn.
  - f_equal. lia.
  - destruct b; cbn.
    + rewrite (in_marked_pair m lo hi more r c Hmc). cbn.
      destruct (selected (marked_row m) lo hi r c); cbn;
        rewrite IH; f_equal; lia.
    + rewrite IH. f_equal.
Qed.

Lemma count_rows_pair m lo hi more fld r n :
  marked_columns m = lo :: hi :: more ->
  count_rows m fld r n =
  Some (n + count_keep
              (fun i j => negb (selected (marked_row m) lo hi i j)) fld r).
Proof.
  intros Hmc. revert r n.
  induction fld as [|columns rest IH]; intros r n; cbn.
  - f_equal. lia.
  - rewrite (count_columns_pair m lo hi more r columns 0 n Hmc). cbn.
    rewrite IH. f_equal. lia.
Qed.

Lemma count_remaining_pair m lo hi more :
  marked_columns m = lo :: hi :: more ->
  count_remaining m =
  Some (count_keep (fun i j => negb (selected (marked_row m) lo hi i j))
          (field m) 0).
Proof.
  intros Hmc. unfold count_remaining.
  by rewrite (count_rows_pair m lo hi more (field m) 0 0 Hmc).
Qed.

(** ** Clearing cells *)

Lemma lookup_clear_columns sel columns c0 (j : nat) :
  clear_columns sel columns c0 !! j =
  (fun b : bool => if sel (c0 + Z.of_nat j) then false else b) <$> columns !! j.
Proof.
  revert c0 j. induction columns as [|b rest IH]; intros c0 j; [done|].
  destruct j as [|j]; cbn.
  - by replace (c0 + Z.of_nat 0) with c0 by lia.
  - rewrite IH. by replace (c0 + 1 + Z.of_nat j) with (c0 + Z.of_nat (S j)) by lia.
Qed.

Lemma lookup_clear_cells sel fld r0 (i : nat) :
  clear_cells sel fld r0 !! i =
  (fun columns => clear_columns (sel (r0 + Z.of_nat i)) columns 0) <$> fld !! i.
Proof.
  revert r0 i. induction fld as [|columns rest IH]; intros r0 i; [done|].
  destruct i as [|i]; cbn.
  - by replace (r0 + Z.of_nat 0) with r0 by lia.
  - rewrite IH. by replace (r0 + 1 + Z.of_nat i) with (r0 + Z.of_nat (S i)) by lia.
Qed.

Lemma length_clear_columns sel columns c0 :
  length (clear_columns sel columns c0) = length columns.
Proof.
  revert c0. induction columns as [|b rest IH]; intros c0; cbn; [done|].
  by rewrite IH.
Qed.

Lemma length_clear_cells sel fld r0 :
  length (clear_cells sel fld r0) = length fld.
Proof.
  revert r0. induction fld as [|columns rest IH]; intros r0; cbn; [done|].
  by rewrite IH.
Qed.

Lemma clear_columns_ext sel sel' columns c0 :
  (forall j, 0 <= j -> sel (c0 + j) = sel' (c0 + j)) ->
  clear_columns sel columns c0 = clear_columns sel' columns c0.
Proof.
  revert c0. induction columns as [|b rest IH]; intros c0 Hext; cbn; [done|].
  rewrite IH.
  - specialize (Hext 0). rewrite Z.add_0_r in Hext. by rewrite Hext.
  - intros j Hj. replace (c0 + 1 + j) with (c0 + (1 + j)) by lia.
    apply Hext. lia.
Qed.

Lemma clear_cells_ext sel sel' fld r0 :
  (forall i j, 0 <= i -> 0 <= j -> sel (r0 + i) j = sel' (r0 + i) j) ->
  clear_cells sel fld r0 = clear_cells sel' fld r0.
Proof.
  revert r0. induction fld as [|columns rest IH]; intros r0 Hext; cbn; [done|].
  rewrite IH.
  - f_equal. apply clear_columns_ext. intros j Hj.
    specialize (Hext 0 j). rewrite Z.add_0_r in Hext. apply Hext; lia.
  - intros i j Hi Hj. replace (r0 + 1 + i) with (r0 + (1 + i)) by lia.
    apply Hext; lia.
Qed.

Lemma clear_columns_none columns c0 :
  clear_columns (fun _ => false) columns c0 = columns.
Proof.
  revert c0. induction columns as [|b rest IH]; intros c0; cbn; [done|].
  by rewrite IH.
Qed.

Lemma clear_cells_none fld r0 : clear_cells (fun _ _ => false) fld r0 = fld.
Proof.
  revert r0. induction fld as [|columns rest IH]; intros r0; cbn; [done|].
  by rewrite IH, clear_columns_none.
Qed.

(** Clearing twice is clearing the union. *)
Lemma clear_columns_twice sel1 sel2 columns c0 :
  clear_columns sel2 (clear_columns sel1 columns c0) c0 =
  clear_columns (fun j => sel1 j || sel2 j) columns c0.
Proof.
  revert c0. induction columns as [|b rest IH]; intros c0; cbn; [done|].
  rewrite IH. by destruct (sel1 c0), (sel2 c0).
Qed.

Lemma clear_cells_twice sel1 sel2 fld r0 :
  clear_cells sel2 (clear_cells sel1 fld r0) r0 =
  clear_cells (fun i j => sel1 i j || sel2 i j) fld r0.
Proof.
  revert r0. induction fld as [|columns rest IH]; intros r0; cbn; [done|].
  by rewrite IH, clear_columns_twice.
Qed.

(** The present cells left by a clearing are those outside it. *)
Lemma count_clear_columns sel columns c0 :
  count_keep_columns (fun _ => true) (clear_columns sel columns c0) c0 =
  count_keep_columns (fun j => negb (sel j)) columns c0.
Proof.
  revert c0. induction columns as [|b rest IH]; intros c0; cbn; [done|].
  rewrite IH. by destruct (sel c0), b.
Qed.

Lemma count_clear_cells sel fld r0 :
  count_keep (fun _ _ => true) (clear_cells sel fld r0) r0 =
  count_keep (fun i j => negb (sel i j)) fld r0.
Proof.
  revert r0. induction fld as [|columns rest IH]; intros r0; cbn; [done|].
  by rewrite IH, count_clear_columns.
Qed.

Lemma available_clear_cells sel fld :
  available (clear_cells sel fld 0) =
  count_keep (fun i j => negb (sel i j)) fld 0.
Proof. rewrite available_count. apply count_clear_cells. Qed.

Lemma count_keep_le_available keep fld :
  count_keep keep fld 0 <= available fld.
Proof.
  rewrite available_count, (count_keep_split keep).
  pose proof (count_keep_nonneg (fun i j => negb (keep i j)) fld 0). lia.
Qed.

(** Reading a cell of a cleared board. *)
Lemma cell_clear_cells sel fld r c :
  cell (clear_cells sel fld 0) r c =
  (fun b : bool => if sel r c then false else b) <$> cell fld r c.
Proof.
  unfold cell, index.
  destruct (0 <=? r) eqn:Er; [|done]. bool_to_prop.
  rewrite lookup_clear_cells. destruct (fld !! Z.to_nat r) as [columns|]; [|done].
  cbn. destruct (0 <=? c) eqn:Ec; [|done]. bool_to_prop.
  rewrite lookup_clear_columns.
  replace (0 + Z.of_nat (Z.to_nat r)) with r by lia.
  replace (0 + Z.of_nat (Z.to_nat c)) with c by lia.
  done.
Qed.

Lemma Forall_length_clear_cells sel fld r0 (n : Z) :
  Forall (fun columns => Z.of_nat (length columns) = n) fld ->
  Forall (fun columns => Z.of_nat (length columns) = n) (clear_cells sel fld r0).
Proof.
  intros H. revert r0. induction H as [|columns rest Hc Hr IH]; intros r0; cbn.
  - constructor.
  - constructor; [by rewrite length_clear_columns | apply IH].
Qed.

(** One assignment [field[r][c] = false] clears one cell. *)
Lemma store_false_spec fld r c fld' :
  store fld r c false = Some fld' ->
  fld' = clear_cells (selected r c c) fld 0.
Proof.
  unfold store. intros H.
  destruct (index fld r) as [columns|] eqn:Hr; [|done]. cbn in H.
  destruct (index columns c) as [b|] eqn:Hc; [|done]. cbn in H.
  injection H as <-.
  apply index_Some in Hr as [Hr0 Hr]. apply index_Some in Hc as [Hc0 Hc].
  apply list_eq. intros i. rewrite lookup_clear_cells.
  destruct (decide (Z.to_nat r = i)) as [<-|Hne].
  - rewrite list_lookup_insert_eq by (by eapply lookup_lt_Some).
    rewrite Hr. cbn. f_equal. apply list_eq. intros j.
    rewrite lookup_clear_columns. unfold selected.
    replace (0 + Z.of_nat (Z.to_nat r) =? r) with true by (symmetry; apply Z.eqb_eq; lia).
    cbn. destruct (decide (Z.to_nat c = j)) as [<-|Hnej].
    + rewrite list_lookup_insert_eq by (by eapply lookup_lt_Some).
      rewrite Hc. cbn.
      replace (c <=? 0 + Z.of_nat (Z.to_nat c)) with true by (symmetry; apply Z.leb_le; lia).
      replace (0 + Z.of_nat (Z.to_nat c) <=? c) with true by (symmetry; apply Z.leb_le; lia).
      done.
    + rewrite list_lookup_insert_ne by done.
      destruct (columns !! j) as [b'|]; [|done]. cbn.
      destruct (c <=? 0 + Z.of_nat j) eqn:E1, (0 + Z.of_nat j <=? c) eqn:E2;
        cbn; try done. bool_to_prop. lia.
  - rewrite list_lookup_insert_ne by done.
    destruct (fld !! i) as [cs|]; [|done]. cbn. f_equal.
    rewrite (clear_columns_ext _ (fun _ => false)), clear_columns_none; [done|].
    intros j _. unfold selected.
    replace (0 + Z.of_nat i =? r) with false by (symmetry; apply Z.eqb_neq; lia).
    done.
Qed.

(** The clearing loop clears the range it runs over. *)
Lemma clear_loop_spec fld r c n fld' :
  clear_loop fld r c n = Some fld' ->
  fld' = clear_cells (selected r c (c + Z.of_nat n - 1)) fld 0.
Proof.
  revert fld c. induction n as [|n IH]; intros fld c H.
  - cbn in H. injection H as <-.
    rewrite (clear_cells_ext _ (fun _ _ => false)), clear_cells_none; [done|].
    intros i j _ _. unfold selected.
    destruct (0 + i =? r), (c <=? j) eqn:E1, (j <=? c + Z.of_nat 0 - 1) eqn:E2;
      cbn; try done. bool_to_prop. lia.
  - cbn [clear_loop] in H.
    destruct (store fld r c false) as [fld1|] eqn:Hs; [|done]. cbn in H.
    apply store_false_spec in Hs as ->. apply IH in H as ->.
    rewrite clear_cells_twice. apply clear_cells_ext.
    intros i j _ _. unfold selected.
    destruct (0 + i =? r); cbn; [|done].
    destruct (c <=? j) eqn:E1, (j <=? c) eqn:E2, (c + 1 <=? j) eqn:E3,
      (j <=? c + 1 + Z.of_nat n - 1) eqn:E4,
      (j <=? c + Z.of_nat (S n) - 1) eqn:E5; cbn; try done; bool_to_prop; lia.
Qed.

(** Inside the row, the loop does not panic. *)
Lemma clear_loop_total fld r c n columns :
  index fld r = Some columns -> 0 <= c ->
  c + Z.of_nat n <= Z.of_nat (length columns) ->
  is_Some (clear_loop fld r c n).
Proof.
  revert fld c columns. induction n as [|n IH]; intros fld c columns Hr Hc Hn.
  - by eexists.
  - cbn [clear_loop]. unfold store. rewrite Hr. cbn.
    destruct (index_is_Some columns c) as [b Hb]; [lia|]. rewrite Hb. cbn.
    apply index_Some in Hr as [Hr0 Hr].
    eapply (IH _ _ (<[Z.to_nat c:=false]> columns)).
    + apply index_Some. split; [done|].
      apply list_lookup_insert_eq. by eapply lookup_lt_Some.
    + lia.
    + rewrite length_insert. lia.
Qed.

(** ** The submit key *)

(** The loop of line 223 runs over the columns [lo..hi]. *)
Lemma clear_loop_range fld mr lo hi fld' :
  clear_loop fld mr lo (Z.to_nat (hi - lo + 1)) = Some fld' ->
  fld' = clear_cells (selected mr lo hi) fld 0.
Proof.
  intros ->%clear_loop_spec. apply clear_cells_ext.
  intros i j _ _. unfold selected.
  destruct (0 + i =? mr); cbn; [|done].
  destruct (lo <=? j) eqn:E1; cbn; [|done].
  destruct (j <=? lo + Z.of_nat (Z.to_nat (hi - lo + 1)) - 1) eqn:E2,
    (j <=? hi) eqn:E3; try done; bool_to_prop; lia.
Qed.

(** Whatever the state, a submit that returns either leaves the model as it
    was or is a move: the selection has its two ends, cells remain outside
    it, and the new model is [after_move] on the board with the range
    cleared. *)
Lemma Update_Submit_cases m m' cmd :
  Update_Submit m = Some (m', cmd) ->
  cmd = CmdNil /\
  (m' = m \/
   exists lo hi more,
     marked_columns m = lo :: hi :: more /\
     count_remaining m <> Some 0 /\
     m' = after_move m
            (clear_cells (selected (marked_row m) lo hi) (field m) 0)).
Proof.
  unfold Update_Submit. intros H.
  destruct (marked_columns m) as [|lo [|hi more]] eqn:Hmc.
  - injection H as <- <-. auto.
  - destruct (count_remaining m) as [n|]; [|done]. cbn in H.
    destruct (n =? 0); [|done]. injection H as <- <-. auto.
  - rewrite (count_remaining_pair m lo hi more Hmc) in *.
    cbn [mbind option_bind] in H.
    destruct (_ =? 0) eqn:En in H.
    + injection H as <- <-. auto.
    + change (index (lo :: hi :: more) 0) with (Some lo) in H.
      change (index (lo :: hi :: more) 1) with (Some hi) in H.
      cbn [mbind option_bind] in H.
      destruct (clear_loop _ _ _ _) as [fld'|] eqn:Hl in H; [|done].
      injection H as <- <-. split; [done|]. right. exists lo, hi, more.
      split; [done|]. split.
      { intros [=]. bool_to_prop. done. }
      f_equal. by apply clear_loop_range.
Qed.

(** A submit with an empty selection is ignored. *)
Lemma Update_Submit_empty m :
  marked_columns m = [] -> Update_Submit m = Some (m, CmdNil).
Proof. unfold Update_Submit. by intros ->. Qed.

(** A submit that would leave no cell is ignored. *)
Lemma Update_Submit_none_left m :
  count_remaining m = Some 0 -> Update_Submit m = Some (m, CmdNil).
Proof.
  unfold Update_Submit. intros ->. by destruct (marked_columns m).
Qed.

(** On a well-formed state a submit that leaves cells is a move. *)
Lemma Update_Submit_move m lo hi :
  wf m -> marked_columns m = [lo; hi] -> count_remaining m <> Some 0 ->
  Update_Submit m =
  Some (after_move m (clear_cells (selected (marked_row m) lo hi) (field m) 0),
        CmdNil).
Proof.
  intros (Hshape & Hcur & Hsel) Hmc Hrem.
  unfold Update_Submit. rewrite Hmc.
  rewrite (count_remaining_pair m lo hi [] Hmc) in *.
  cbn [mbind option_bind].
  destruct (_ =? 0) eqn:En.
  { bool_to_prop. by rewrite En in Hrem. }
  change (index [lo; hi] 0) with (Some lo).
  change (index [lo; hi] 1) with (Some hi). cbn [mbind option_bind].
  unfold selection_ok in Hsel. rewrite Hmc in Hsel.
  destruct Hshape as (Hrows & Hcols & _).
  destruct (index_is_Some (field m) (marked_row m)) as [columns Hr]; [lia|].
  destruct (clear_loop_total (field m) (marked_row m) lo
              (Z.to_nat (hi - lo + 1)) columns Hr) as [fld' Hl]; [lia| |].
  - apply index_Some in Hr as [_ Hr].
    rewrite Forall_lookup in Hcols. specialize (Hcols _ _ Hr). cbn in Hcols. lia.
  - rewrite Hl. cbn. by apply clear_loop_range in Hl as ->.
Qed.

Lemma Update_Submit_total m : wf m -> is_Some (Update_Submit m).
Proof.
  intros Hwf. pose proof Hwf as (_ & _ & Hsel). unfold selection_ok in Hsel.
  destruct (marked_columns m) as [|lo [|hi [|]]] eqn:Hmc; try done.
  - rewrite Update_Submit_empty; eauto.
  - destruct (decide (count_remaining m = Some 0)) as [H0|H0].
    + rewrite Update_Submit_none_left; eauto.
    + erewrite Update_Submit_move; eauto.
Qed.

(** ** The select key *)

Lemma cell_Some fld r c b :
  cell fld r c = Some b <->
  exists columns, index fld r = Some columns /\ index columns c = Some b.
Proof.
  unfold cell. destruct (index fld r) as [columns|]; cbn.
  - split; [eauto|]. by intros (? & [= <-] & ?).
  - split; [done|]. by intros (? & [=] & ?).
Qed.

(** On an absent cell the key does nothing. *)
Lemma Update_Select_absent m :
  cell (field m) (row m) (col m) = Some false ->
  Update_Select m = Some (m, CmdNil).
Proof.
  intros (columns & Hr & Hc)%cell_Some. unfold Update_Select.
  rewrite Hr. cbn [mbind option_bind]. by rewrite Hc.
Qed.

(** On a present cell of another row, or without a selection, the key starts
    the selection [[col, col]] on the cursor's row. *)
Lemma Update_Select_fresh m :
  cell (field m) (row m) (col m) = Some true ->
  marked_row m <> row m \/ marked_columns m = [] ->
  Update_Select m =
  Some (with_marked_columns (with_marked_row m (row m)) [col m; col m], CmdNil).
Proof.
  intros (columns & Hr & Hc)%cell_Some Hfresh. unfold Update_Select.
  rewrite Hr. cbn [mbind option_bind]. rewrite Hc. cbn [mbind option_bind negb].
  destruct (marked_row m =? row m) eqn:E; bool_to_prop; cbn [negb].
  - destruct Hfresh as [?|Hmc]; [done|]. cbn. rewrite Hmc. reflexivity.
  - reflexivity.
Qed.

(** On a present cell inside the selection the key cancels it. *)
Lemma Update_Select_cancel m lo hi more :
  cell (field m) (row m) (col m) = Some true ->
  marked_row m = row m -> marked_columns m = lo :: hi :: more ->
  lo <= col m <= hi ->
  Update_Select m =
  Some (with_marked_columns (with_marked_row m (row m)) [], CmdNil).
Proof.
  intros (columns & Hr & Hc)%cell_Some Hrow Hmc Hin. unfold Update_Select.
  rewrite Hr. cbn [mbind option_bind]. rewrite Hc. cbn [mbind option_bind negb].
  rewrite Hrow, Z.eqb_refl. cbn [negb with_marked_row marked_columns col].
  rewrite Hmc.
  change (index (lo :: hi :: more) 0) with (Some lo).
  change (index (lo :: hi :: more) 1) with (Some hi).
  cbn [mbind option_bind length Nat.ltb Nat.leb].
  rewrite !Z.geb_leb.
  replace (lo <=? col m) with true by (symmetry; apply Z.leb_le; lia).
  cbn [mbind option_bind].
  replace (col m <=? hi) with true by (symmetry; apply Z.leb_le; lia).
  reflexivity.
Qed.

(** On a present cell of the selection's row outside the range the key
    extends the range to the new column. *)
Lemma Update_Select_extend m lo hi :
  cell (field m) (row m) (col m) = Some true ->
  marked_row m = row m -> marked_columns m = [lo; hi] ->
  lo <= hi -> col m < lo \/ hi < col m ->
  Update_Select m =
  Some (with_marked_columns (with_marked_row m (row m))
          [Z.min lo (col m); Z.max hi (col m)], CmdNil).
Proof.
  intros (columns & Hr & Hc)%cell_Some Hrow Hmc Hle Hout. unfold Update_Select.
  rewrite Hr. cbn [mbind option_bind]. rewrite Hc. cbn [mbind option_bind negb].
  rewrite Hrow, Z.eqb_refl. cbn [negb with_marked_row marked_columns col].
  rewrite Hmc.
  change (index [lo; hi] 0) with (Some lo).
  change (index [lo; hi] 1) with (Some hi).
  cbn [mbind option_bind length Nat.ltb Nat.leb].
  rewrite !Z.geb_leb, (first_and_last_extend lo hi (col m) Hle Hout).
  destruct (lo <=? col m) eqn:E1; cbn [mbind option_bind].
  - destruct (col m <=? hi) eqn:E2; [bool_to_prop; lia|]. reflexivity.
  - reflexivity.
Qed.

(** The select key never touches anything but the selection. *)
Lemma Update_Select_frame m m' cmd :
  Update_Select m = Some (m', cmd) ->
  cmd = CmdNil /\ field m' = field m /\ row m' = row m /\ col m' = col m /\
  rows m' = rows m /\ cols m' = cols m /\ player m' = player m /\
  width m' = width m /\ height m' = height m.
Proof.
  unfold Update_Select. intros H.
  destruct (index (field m) (row m)) as [columns|]; [|done].
  cbn [mbind option_bind] in H.
  destruct (index columns (col m)) as [[]|]; [| |done];
    cbn [mbind option_bind negb] in H.
  - destruct (if (0 <? length _)%nat then _ else _) as [[]|] in H; [| |done];
      cbn [mbind option_bind] in H; injection H as <- <-;
      destruct (negb _); done.
  - by injection H as <- <-.
Qed.

(** ** Well-formed states *)

Lemma wf_initial t w h now : wf (initial_model t w h now).
Proof.
  unfold wf, shape_ok, cursor_ok, selection_ok, int_max. cbn.
  repeat split; try lia. repeat constructor.
Qed.

Lemma ends_present_initial t w h now : ends_present (initial_model t w h now).
Proof. done. Qed.

Lemma wf_cell_bounds m r c :
  wf m -> 0 <= r < rows m -> 0 <= c < cols m ->
  exists b, cell (field m) r c = Some b.
Proof.
  intros ((Hrows & Hcols & _) & _ & _) Hr Hc.
  destruct (index_is_Some (field m) r) as [columns Hi]; [lia|].
  pose proof Hi as [_ Hl]%index_Some.
  rewrite Forall_lookup in Hcols. specialize (Hcols _ _ Hl). cbn in Hcols.
  destruct (index_is_Some columns c) as [b Hb]; [lia|].
  exists b. apply cell_Some. eauto.
Qed.

Lemma cell_bounds m r c b :
  wf m -> cell (field m) r c = Some b -> 0 <= r < rows m /\ 0 <= c < cols m.
Proof.
  intros ((Hrows & Hcols & _) & _ & _) (columns & Hr & Hc)%cell_Some.
  pose proof (index_lt _ _ _ Hr). pose proof (index_lt _ _ _ Hc).
  apply index_Some in Hr as [_ Hl].
  rewrite Forall_lookup in Hcols. specialize (Hcols _ _ Hl). cbn in Hcols. lia.
Qed.

(** What the select key does on a well-formed state, case by case. *)
Lemma Update_Select_wf m :
  wf m ->
  (cell (field m) (row m) (col m) = Some false /\
   Update_Select m = Some (m, CmdNil)) \/
  (cell (field m) (row m) (col m) = Some true /\
   exists s,
     Update_Select m =
       Some (with_marked_columns (with_marked_row m (row m)) s, CmdNil) /\
     ((s = [col m; col m] /\
       (marked_row m <> row m \/ marked_columns m = [])) \/
      (s = [] /\ marked_row m = row m /\
       exists lo hi, marked_columns m = [lo; hi] /\ lo <= col m <= hi) \/
      (exists lo hi,
         marked_columns m = [lo; hi] /\ marked_row m = row m /\ lo <= hi /\
         (col m < lo \/ hi < col m) /\
         s = [Z.min lo (col m); Z.max hi (col m)]))).
Proof.
  intros Hwf. pose proof Hwf as (_ & Hcur & Hsel).
  destruct (wf_cell_bounds m (row m) (col m) Hwf) as [[] Hb];
    [apply Hcur..| |]; [right|left].
  2: { split; [done|]. by apply Update_Select_absent. }
  split; [done|].
  destruct (decide (marked_row m = row m)) as [Hrow|Hrow].
  2: { eexists. split; [by apply Update_Select_fresh; auto|]. auto. }
  unfold selection_ok in Hsel.
  destruct (marked_columns m) as [|lo [|hi [|]]] eqn:Hmc; try done.
  { eexists. split; [by apply Update_Select_fresh; auto|]. auto. }
  destruct (decide (lo <= col m <= hi)) as [Hin|Hout].
  - eexists. split; [by eapply Update_Select_cancel|].
    right. left. eauto 10.
  - eexists. split; [eapply Update_Select_extend; eauto; lia|].
    right. right. exists lo, hi. repeat split; try done; lia.
Qed.

Lemma Update_Select_total m : wf m -> is_Some (Update_Select m).
Proof.
  intros [[_ ->]|[_ (s & -> & _)]]%Update_Select_wf; eauto.
Qed.

Lemma Update_Select_preserves_wf m m' cmd :
  wf m -> Update_Select m = Some (m', cmd) -> wf m'.
Proof.
  intros Hwf HU. pose proof Hwf as (Hshape & Hcur & Hsel).
  destruct (Update_Select_wf m Hwf) as [[_ HU']|[_ (s & HU' & Hs)]];
    rewrite HU' in HU; injection HU as <- <-; [done|].
  split; [done|]. split; [done|]. unfold selection_ok. cbn.
  unfold cursor_ok in Hcur.
  destruct Hs as [[-> _]|[[-> _]|(lo & hi & Hmc & Hrow & Hle & Hout & ->)]].
  - lia.
  - done.
  - unfold selection_ok in Hsel. rewrite Hmc in Hsel. lia.
Qed.

Lemma Update_Select_preserves_ends m m' cmd :
  wf m -> ends_present m -> Update_Select m = Some (m', cmd) ->
  ends_present m'.
Proof.
  intros Hwf Hends HU.
  destruct (Update_Select_wf m Hwf) as [[_ HU']|[Hcell (s & HU' & Hs)]];
    rewrite HU' in HU; injection HU as <- <-; [done|].
  unfold ends_present in *. cbn.
  destruct Hs as [[-> _]|[[-> _]|(lo & hi & Hmc & Hrow & Hle & Hout & ->)]].
  - done.
  - done.
  - rewrite Hmc, Hrow in Hends. destruct Hends as [Hlo Hhi].
    split.
    + destruct (Z.min_spec lo (col m)) as [[_ ->]|[_ ->]]; done.
    + destruct (Z.max_spec hi (col m)) as [[_ ->]|[_ ->]]; done.
Qed.

Lemma after_move_wf m lo hi :
  wf m ->
  wf (after_move m (clear_cells (selected (marked_row m) lo hi) (field m) 0)).
Proof.
  intros ((Hrows & Hcols & Hr & Hc) & _ & _).
  split; [|split]; cbn.
  - unfold shape_ok. cbn. rewrite length_clear_cells.
    repeat split; try lia. by apply Forall_length_clear_cells.
  - unfold cursor_ok. cbn. lia.
  - done.
Qed.

Lemma Update_Submit_preserves_wf m m' cmd :
  wf m -> Update_Submit m = Some (m', cmd) -> wf m'.
Proof.
  intros Hwf [_ [->|(lo & hi & more & _ & _ & ->)]]%Update_Submit_cases;
    [done|]. by apply after_move_wf.
Qed.

Lemma Update_preserves_wf m msg m' cmd :
  wf m -> Update m msg = Some (m', cmd) -> wf m'.
Proof.
  intros Hwf HU. pose proof Hwf as (Hshape & Hcur & Hsel).
  destruct Hshape as (Hrows & Hcols & Hr & Hc).
  unfold cursor_ok in Hcur. unfold int_max in *.
  destruct msg as [t|w h|k|]; key_cases HU;
    try (by eapply Update_Submit_preserves_wf);
    try (by eapply Update_Select_preserves_wf);
    injection HU as <- <-; try done;
    (split; [done|]; split; [|done]); unfold cursor_ok; cbn;
    rewrite ?wrap_id by (unfold int_min, int_max; lia).
  - destruct (_ >? _) eqn:E; bool_to_prop; lia.
  - destruct (_ <? _) eqn:E; bool_to_prop; lia.
  - destruct (_ >? _) eqn:E; bool_to_prop; lia.
  - destruct (_ <? _) eqn:E; bool_to_prop; lia.
Qed.

Lemma Update_total m msg : wf m -> is_Some (Update m msg).
Proof.
  intros Hwf. unfold Update. destruct msg as [t|w h|k|]; try by eexists.
  repeat match goal with
  | |- is_Some (if key_Matches ?k ?b then _ else _) =>
      destruct (key_Matches k b)
  end; try by eexists.
  - by apply Update_Submit_total.
  - by apply Update_Select_total.
Qed.

Lemma Update_preserves_ends m msg m' cmd :
  wf m -> ends_present m -> Update m msg = Some (m', cmd) -> ends_present m'.
Proof.
  intros Hwf Hends HU.
  destruct msg as [t|w h|k|]; key_cases HU;
    try (by eapply Update_Select_preserves_ends);
    try (injection HU as <- <-; done).
  apply Update_Submit_cases in HU as [_ [->|(lo & hi & more & _ & _ & ->)]];
    done.
Qed.

(** Every state of a session is well formed, with both ends of its selection
    on present cells. *)
Lemma reachable_wf m : reachable m -> wf m /\ ends_present m.
Proof.
  induction 1 as [t w h now|m msg m' cmd _ [IHwf IHends] HU].
  - split; [apply wf_initial | apply ends_present_initial].
  - split; [by eapply Update_preserves_wf | by eapply Update_preserves_ends].
Qed.

(** ** Runs *)

Lemma run_reachable m msgs m' : reachable m -> run m msgs = Some m' -> reachable m'.
Proof.
  revert m. induction msgs as [|msg rest IH]; intros m Hm H; cbn in H.
  - by injection H as <-.
  - destruct (Update m msg) as [[m1 []]|] eqn:HU; [| |done].
    + eapply IH; [|done]. by eapply reachable_step.
    + injection H as <-. by eapply reachable_step.
Qed.

Lemma run_total m msgs : wf m -> is_Some (run m msgs).
Proof.
  revert m. induction msgs as [|msg rest IH]; intros m Hwf; cbn; [by eexists|].
  destruct (Update_total m msg Hwf) as [[m1 []] HU]; rewrite HU.
  - eapply IH, Update_preserves_wf; eauto.
  - by eexists.
Qed.

Lemma reachable_before_extend : reachable before_extend.
Proof.
  apply (run_reachable session0 (press gap_keys)); [constructor|].
  vm_compute. reflexivity.
Qed.

Lemma reachable_on_gap : reachable on_gap.
Proof.
  apply (run_reachable before_extend (press [" "; "left"]%string)).
  - apply reachable_before_extend.
  - vm_compute. reflexivity.
Qed.

Lemma reachable_inside_range : reachable inside_range.
Proof.
  apply (run_reachable session0
           (press ["down"; "down"; "down"; " "; "right"; "right"; " ";
                   "left"]%string)); [constructor|].
  vm_compute. reflexivity.
Qed.

Lemma reachable_other_row : reachable other_row.
Proof.
  apply (run_reachable inside_range (press ["right"; "up"; "up"; "up"]%string)).
  - apply reachable_inside_range.
  - vm_compute. reflexivity.
Qed.

Lemma reachable_last_cell : reachable last_cell.
Proof.
  apply (run_reachable session0 (press endgame_keys)); [constructor|].
  vm_compute. reflexivity.
Qed.

Lemma reachable_last_cell_selected : reachable last_cell_selected.
Proof.
  apply (run_reachable last_cell
           (press ["right"; "right"; "right"; " "]%string)).
  - apply reachable_last_cell.
  - vm_compute. reflexivity.
Qed.

(** ** What an event can do to the board *)

Lemma Update_enter m : Update m (KeyMsg "enter") = Update_Submit m.
Proof. reflexivity. Qed.

Lemma Update_space m : Update m (KeyMsg " ") = Update_Select m.
Proof. reflexivity. Qed.

(** An event leaves the board alone unless it is an accepted submit. *)
Lemma Update_field_cases m msg m' cmd :
  Update m msg = Some (m', cmd) ->
  field m' = field m \/
  exists k lo hi more,
    msg = KeyMsg k /\ key_Matches k (Submit keys) = true /\
    marked_columns m = lo :: hi :: more /\
    count_remaining m <> Some 0 /\
    m' = after_move m (clear_cells (selected (marked_row m) lo hi) (field m) 0).
Proof.
  intros HU. destruct msg as [t|w h|k|]; key_cases HU;
    try (injection HU as <- <-; by left).
  - apply Update_Submit_cases in HU as [_ [->|(lo & hi & more & ? & ? & ->)]];
      [by left|]. right. by exists k, lo, hi, more.
  - apply Update_Select_frame in HU. left. tauto.
Qed.

(** After a move the board holds what [count_remaining] counted. *)
Lemma available_after_move m lo hi more :
  marked_columns m = lo :: hi :: more ->
  count_remaining m =
  Some (available (clear_cells (selected (marked_row m) lo hi) (field m) 0)).
Proof.
  intros Hmc. by rewrite (count_remaining_pair m lo hi more Hmc),
    available_clear_cells.
Qed.

(** With one cell left and the ends of the selection present, nothing
    remains outside the selection. *)
Lemma frozen_count m lo hi :
  wf m -> ends_present m -> available (field m) = 1 ->
  marked_columns m = [lo; hi] -> count_remaining m = Some 0.
Proof.
  intros Hwf Hends Hone Hmc. pose proof Hwf as (_ & _ & Hsel).
  unfold selection_ok in Hsel. unfold ends_present in Hends.
  rewrite Hmc in Hsel, Hends. destruct Hends as [Hlo _].
  rewrite (count_remaining_pair m lo hi [] Hmc). f_equal.
  rewrite available_count,
    (count_keep_split (selected (marked_row m) lo hi)) in Hone.
  apply cell_Some in Hlo as (columns & [? Hr]%index_Some & [? Hc]%index_Some).
  pose proof (count_keep_pos (selected (marked_row m) lo hi) (field m) 0
                _ _ _ Hr Hc) as Hpos.
  pose proof (count_keep_nonneg
    (fun i j => negb (selected (marked_row m) lo hi i j)) (field m) 0).
  assert (selected (marked_row m) lo hi (0 + Z.of_nat (Z.to_nat (marked_row m)))
            (Z.of_nat (Z.to_nat lo)) = true) as Hs.
  { unfold selected. rewrite !Z2Nat.id by lia. cbn.
    rewrite Z.eqb_refl. cbn. apply andb_true_intro.
    split; apply Z.leb_le; lia. }
  specialize (Hpos Hs). lia.
Qed.

Lemma frozen_submit m :
  wf m -> ends_present m -> available (field m) = 1 ->
  Update_Submit m = Some (m, CmdNil).
Proof.
  intros Hwf Hends Hone. pose proof Hwf as (_ & _ & Hsel).
  unfold selection_ok in Hsel.
  destruct (marked_columns m) as [|lo [|hi [|]]] eqn:Hmc; try done.
  - by apply Update_Submit_empty.
  - apply Update_Submit_none_left. by eapply frozen_count.
Qed.

Lemma frozen_step m msg m' cmd :
  wf m -> ends_present m -> available (field m) = 1 ->
  Update m msg = Some (m', cmd) -> field m' = field m.
Proof.
  intros Hwf Hends Hone HU.
  destruct (Update_field_cases m msg m' cmd HU)
    as [?|(k & lo & hi & more & -> & Hk & Hmc & Hrem & ->)]; [done|].
  exfalso. pose proof Hwf as (_ & _ & Hsel). unfold selection_ok in Hsel.
  rewrite Hmc in Hsel. destruct more; [|done].
  by rewrite (frozen_count m lo hi) in Hrem.
Qed.

Lemma frozen_run m msgs :
  reachable m -> available (field m) = 1 ->
  exists m', run m msgs = Some m' /\ reachable m' /\ field m' = field m.
Proof.
  revert m. induction msgs as [|msg rest IH]; intros m Hm Hone; cbn.
  - eauto.
  - destruct (reachable_wf m Hm) as [Hwf Hends].
    destruct (Update_total m msg Hwf) as [[m1 c] HU]. rewrite HU.
    pose proof (frozen_step m msg m1 c Hwf Hends Hone HU) as Hf.
    assert (reachable m1) as Hm1 by (by eapply reachable_step).
    destruct c; [|eauto].
    destruct (IH m1 Hm1) as (m' & Hrun & Hm' & Hf'); [by rewrite Hf|].
    exists m'. by rewrite Hf', Hf.
Qed.

(** ** The claims *)

(** C1 (terminal freeze).  In every state a session can reach in which one
    cell is left, whatever events follow, the event loop does not panic, the
    board of the state it arrives at is the same board (so one cell is still
    left), and the submit key in that state is rejected: it returns the very
    same model, and when a selection is pending the loop of the submit key
    has counted zero remaining cells. *)
Theorem terminal_freeze (m : model) (msgs : list Msg) :
  reachable m -> available (field m) = 1 ->
  exists m',
    run m msgs = Some m' /\
    field m' = field m /\
    available (field m') = 1 /\
    Update m' (KeyMsg "enter") = Some (m', CmdNil) /\
    (marked_columns m' <> [] -> count_remaining m' = Some 0).
Proof.
  intros Hm Hone.
  destruct (frozen_run m msgs Hm Hone) as (m' & Hrun & Hm' & Hf).
  destruct (reachable_wf m' Hm') as [Hwf Hends].
  assert (available (field m') = 1) as Hone' by (by rewrite Hf).
  exists m'. repeat split; try done.
  - rewrite Update_enter. by apply frozen_submit.
  - intros Hne. pose proof Hwf as (_ & _ & Hsel). unfold selection_ok in Hsel.
    destruct (marked_columns m') as [|lo [|hi [|]]] eqn:Hmc; try done.
    by eapply frozen_count.
Qed.

Lemma terminal_freeze_witness :
  exists m',
    run last_cell (press ["right"; "right"; "right"; " "; "enter"; "?"]%string)
      = Some m' /\
    field m' = field last_cell /\
    available (field m') = 1 /\
    Update m' (KeyMsg "enter") = Some (m', CmdNil) /\
    (marked_columns m' <> [] -> count_remaining m' = Some 0).
Proof.
  apply (terminal_freeze last_cell).
  - apply (run_reachable session0 (press endgame_keys)); [constructor|].
    vm_compute. reflexivity.
  - vm_compute. reflexivity.
Defined.

(** C2 (an illegal submit is ignored).  Whatever the state, the submit key
    pressed with an empty selection, or with a selection outside which the
    counting loops find no present cell, returns the model it was given:
    board, cursor, selection and player are the same.  Consequently no submit
    takes the last cells: whenever the key returns and cells were present,
    cells are present afterwards; and on a well-formed state it returns. *)
Theorem illegal_submit_ignored (m : model) :
  (marked_columns m = [] -> Update m (KeyMsg "enter") = Some (m, CmdNil)) /\
  (count_remaining m = Some 0 -> Update m (KeyMsg "enter") = Some (m, CmdNil)) /\
  (forall m' cmd,
     Update m (KeyMsg "enter") = Some (m', cmd) ->
     0 < available (field m) -> 0 < available (field m')) /\
  (wf m -> is_Some (Update m (KeyMsg "enter"))).
Proof.
  rewrite Update_enter. repeat split.
  - apply Update_Submit_empty.
  - apply Update_Submit_none_left.
  - intros m' cmd HU Hpos.
    apply Update_Submit_cases in HU
      as [_ [->|(lo & hi & more & Hmc & Hrem & ->)]]; [done|].
    cbn [field after_move].
    rewrite (available_after_move m lo hi more Hmc) in Hrem.
    pose proof (available_nonneg
      (clear_cells (selected (marked_row m) lo hi) (field m) 0)).
    destruct (decide (available
      (clear_cells (selected (marked_row m) lo hi) (field m) 0) = 0))
      as [E|E]; [by rewrite E in Hrem | lia].
  - apply Update_Submit_total.
Qed.

Lemma illegal_submit_ignored_witness :
  Update last_cell (KeyMsg "enter") = Some (last_cell, CmdNil) /\
  Update last_cell_selected (KeyMsg "enter") = Some (last_cell_selected, CmdNil).
Proof.
  split.
  - apply (proj1 (illegal_submit_ignored last_cell)). reflexivity.
  - apply (proj1 (proj2 (illegal_submit_ignored last_cell_selected))).
    vm_compute. reflexivity.
Defined.

Lemma rem_2_bounds (p : Z) : -1 <= Z.rem p 2 <= 1.
Proof. pose proof (Z.rem_bound_abs p 2). lia. Qed.

(** C3 (an accepted submit).  On a well-formed state with the selection
    [[lo, hi]] on [marked_row], when the counting loops find [n > 0] present
    cells outside the selection, the submit key returns a model in which
    every cell of columns [lo..hi] of [marked_row] is absent and every other
    cell is as before ([n] cells are present), the cursor is at (0,0), the
    selection is empty with [marked_row] set to [rows], which is no row of
    the board, and the player is [player % 2 + 1]: 1 becomes 2 and 2
    becomes 1. *)
Theorem accepted_submit (m : model) (lo hi n : Z) :
  wf m -> marked_columns m = [lo; hi] ->
  count_remaining m = Some n -> 0 < n ->
  exists m',
    Update m (KeyMsg "enter") = Some (m', CmdNil) /\
    (forall c, lo <= c <= hi -> cell (field m') (marked_row m) c = Some false) /\
    (forall r c, ~ (r = marked_row m /\ lo <= c <= hi) ->
       cell (field m') r c = cell (field m) r c) /\
    available (field m') = n /\
    row m' = 0 /\ col m' = 0 /\
    marked_columns m' = [] /\
    marked_row m' = rows m /\ index (field m') (marked_row m') = None /\
    player m' = Z.rem (player m) 2 + 1 /\
    (player m = 1 -> player m' = 2) /\ (player m = 2 -> player m' = 1).
Proof.
  intros Hwf Hmc Hrem Hn.
  assert (count_remaining m <> Some 0) as Hne by (rewrite Hrem; intros [=]; lia).
  eexists. split.
  { rewrite Update_enter. by apply Update_Submit_move. }
  pose proof Hwf as ((Hrows & Hcols & Hr & Hc) & _ & Hsel).
  unfold selection_ok in Hsel. rewrite Hmc in Hsel.
  assert (player (after_move m
            (clear_cells (selected (marked_row m) lo hi) (field m) 0)) =
          Z.rem (player m) 2 + 1) as Hp.
  { cbn. apply wrap_id. pose proof (rem_2_bounds (player m)).
    unfold int_min, int_max. lia. }
  cbn [field row col marked_columns marked_row after_move].
  repeat split; try done.
  - intros c Hin. rewrite cell_clear_cells.
    destruct (wf_cell_bounds m (marked_row m) c Hwf) as [b ->]; [lia..|].
    cbn. f_equal. unfold selected. rewrite Z.eqb_refl. cbn.
    replace (lo <=? c) with true by (symmetry; apply Z.leb_le; lia).
    replace (c <=? hi) with true by (symmetry; apply Z.leb_le; lia).
    done.
  - intros r c Hout. rewrite cell_clear_cells.
    replace (selected (marked_row m) lo hi r c) with false.
    + by destruct (cell (field m) r c).
    + symmetry. unfold selected.
      destruct (r =? marked_row m) eqn:E1, (lo <=? c) eqn:E2,
        (c <=? hi) eqn:E3; try done. bool_to_prop. lia.
  - rewrite (available_after_move m lo hi [] Hmc) in Hrem. by injection Hrem.
  - unfold index. destruct (0 <=? rows m); [|done].
    apply lookup_ge_None. rewrite length_clear_cells. lia.
  - rewrite Hp. by intros ->.
  - rewrite Hp. by intros ->.
Qed.

Lemma accepted_submit_witness :
  exists m',
    Update inside_range (KeyMsg "enter") = Some (m', CmdNil) /\
    (forall c, 0 <= c <= 2 ->
       cell (field m') (marked_row inside_range) c = Some false) /\
    (forall r c, ~ (r = marked_row inside_range /\ 0 <= c <= 2) ->
       cell (field m') r c = cell (field inside_range) r c) /\
    available (field m') = 13 /\
    row m' = 0 /\ col m' = 0 /\
    marked_columns m' = [] /\
    marked_row m' = rows inside_range /\
    index (field m') (marked_row m') = None /\
    player m' = Z.rem (player inside_range) 2 + 1 /\
    (player inside_range = 1 -> player m' = 2) /\
    (player inside_range = 2 -> player m' = 1).
Proof.
  apply (accepted_submit inside_range 0 2 13).
  - unfold wf, shape_ok, cursor_ok, selection_ok, int_max. cbn.
    repeat split; try lia. repeat constructor.
  - reflexivity.
  - vm_compute. reflexivity.
  - lia.
Defined.

(** C4 (removal is monotonic).  On a well-formed state every event (a key,
    a resize, a tick or any other message) returns a model whose board has
    at most as many present cells as before and in which every cell that was
    absent is absent; the count is smaller only when the event is the submit
    key pressed with a selection outside which cells remain, that is, an
    accepted move. *)
Theorem removal_monotonic (m : model) (msg : Msg) :
  wf m ->
  exists m' cmd,
    Update m msg = Some (m', cmd) /\
    available (field m') <= available (field m) /\
    (forall r c, cell (field m) r c = Some false ->
                 cell (field m') r c = Some false) /\
    (available (field m') < available (field m) ->
     exists k lo hi,
       msg = KeyMsg k /\ key_Matches k (Submit keys) = true /\
       marked_columns m = [lo; hi] /\
       count_remaining m = Some (available (field m')) /\
       0 < available (field m') /\
       m' = after_move m
              (clear_cells (selected (marked_row m) lo hi) (field m) 0)).
Proof.
  intros Hwf. destruct (Update_total m msg Hwf) as [[m' cmd] HU].
  exists m', cmd. split; [done|].
  destruct (Update_field_cases m msg m' cmd HU)
    as [Hf|(k & lo & hi & more & -> & Hk & Hmc & Hrem & ->)].
  - rewrite Hf. repeat split; [lia|done|lia].
  - pose proof Hwf as (_ & _ & Hsel). unfold selection_ok in Hsel.
    rewrite Hmc in Hsel. destruct more; [|done].
    cbn [field after_move]. repeat split.
    + rewrite available_clear_cells. apply count_keep_le_available.
    + intros r c Hc. rewrite cell_clear_cells, Hc. cbn.
      by destruct (selected _ _ _ _ _).
    + intros _. exists k, lo, hi.
      pose proof (available_after_move m lo hi [] Hmc) as Ha.
      repeat split; try done.
      pose proof (available_nonneg
        (clear_cells (selected (marked_row m) lo hi) (field m) 0)).
      destruct (decide (available
        (clear_cells (selected (marked_row m) lo hi) (field m) 0) = 0))
        as [E|E]; [|lia]. rewrite E in Ha. done.
Qed.

Lemma removal_monotonic_witness :
  exists m' cmd,
    Update inside_range (KeyMsg "enter") = Some (m', cmd) /\
    available (field m') <= available (field inside_range) /\
    (forall r c, cell (field inside_range) r c = Some false ->
                 cell (field m') r c = Some false) /\
    (available (field m') < available (field inside_range) ->
     exists k lo hi,
       KeyMsg "enter" = KeyMsg k /\ key_Matches k (Submit keys) = true /\
       marked_columns inside_range = [lo; hi] /\
       count_remaining inside_range = Some (available (field m')) /\
       0 < available (field m') /\
       m' = after_move inside_range
              (clear_cells (selected (marked_row inside_range) lo hi)
                 (field inside_range) 0)).
Proof.
  apply (removal_monotonic inside_range (KeyMsg "enter")).
  unfold wf, shape_ok, cursor_ok, selection_ok, int_max. cbn.
  repeat split; try lia. repeat constructor.
Defined.

(** C5, as it is written, fails: with the range [[0, 2]] selected on row 3
    across the cell (3,1) taken earlier, the select key pressed with the
    cursor on (3,1) is ignored (line 237) and the range stays. *)
Lemma cancel_law_fails_on_gap : ~ cancel_law_as_stated.
Proof.
  intros H.
  destruct (H on_gap 0 2 reachable_on_gap eq_refl eq_refl)
    as (m' & cmd & HU & Hmc); [cbn; lia|].
  rewrite Update_space, Update_Select_absent in HU by reflexivity.
  injection HU as <- <-. discriminate Hmc.
Qed.

(** C5, amended (cancel law).  Whatever the state, when the cell under the
    cursor is present: if the cursor lies on [marked_row] within the
    selected range, the select key empties the selection and leaves the
    board as it is; and from an empty selection the key pressed twice gives
    first [[col, col]] and then the empty selection again, with the board
    unchanged. *)
Theorem cancel_law (m : model) :
  cell (field m) (row m) (col m) = Some true ->
  (forall lo hi,
     marked_columns m = [lo; hi] -> row m = marked_row m ->
     lo <= col m <= hi ->
     exists m',
       Update m (KeyMsg " ") = Some (m', CmdNil) /\
       marked_columns m' = [] /\ field m' = field m) /\
  (marked_columns m = [] ->
   exists m1 m2,
     Update m (KeyMsg " ") = Some (m1, CmdNil) /\
     marked_columns m1 = [col m; col m] /\
     Update m1 (KeyMsg " ") = Some (m2, CmdNil) /\
     marked_columns m2 = [] /\ field m2 = field m).
Proof.
  intros Hcell. split.
  - intros lo hi Hmc Hrow Hin. eexists. split.
    + rewrite Update_space. by eapply Update_Select_cancel.
    + done.
  - intros Hmc. eexists. eexists. split; [|split; [|split]].
    + rewrite Update_space. apply Update_Select_fresh; auto.
    + done.
    + rewrite Update_space.
      by apply (Update_Select_cancel _ (col m) (col m) []); cbn; try lia.
    + done.
Qed.

Lemma cancel_law_witness :
  (exists m',
     Update inside_range (KeyMsg " ") = Some (m', CmdNil) /\
     marked_columns m' = [] /\ field m' = field inside_range) /\
  (exists m1 m2,
     Update (game_state (field session0) 3 0 0 [] 1) (KeyMsg " ")
       = Some (m1, CmdNil) /\
     marked_columns m1 = [0; 0] /\
     Update m1 (KeyMsg " ") = Some (m2, CmdNil) /\
     marked_columns m2 = [] /\ field m2 = field session0).
Proof.
  split.
  - apply (proj1 (cancel_law inside_range eq_refl) 0 2); [done|done|cbn; lia].
  - apply (proj2 (cancel_law (game_state (field session0) 3 0 0 [] 1) eq_refl)).
    reflexivity.
Defined.

(** C6, as it is written, fails in its last clause: in the fresh session
    no row has a selection and the cursor is on the absent cell (0,0); the
    select key is ignored (line 237) and no pair [[col, col]] is produced. *)
Lemma first_toggle_fails_on_absent_cell : ~ extend_law_as_stated.
Proof.
  intros H.
  destruct (H session0 (reachable_initial _ _ _ _)) as [_ Hfresh].
  destruct Hfresh as (m' & cmd & HU & Hmc); [by right|].
  rewrite Update_space, Update_Select_absent in HU by reflexivity.
  injection HU as <- <-. discriminate Hmc.
Qed.

(** C6, amended (extend law).  Whatever the state, when the cell under the
    cursor is present: with the ascending range [[lo, hi]] selected on the
    cursor's row and the cursor's column outside it, the select key replaces
    the range by [[min lo col, max hi col]], whatever the cells in between
    hold; and on a row other than [marked_row], or without a selection, it
    gives [[col, col]].  The board is unchanged and the selection is on the
    cursor's row. *)
Theorem extend_law (m : model) :
  cell (field m) (row m) (col m) = Some true ->
  (forall lo hi,
     marked_columns m = [lo; hi] -> marked_row m = row m -> lo <= hi ->
     col m < lo \/ hi < col m ->
     exists m',
       Update m (KeyMsg " ") = Some (m', CmdNil) /\
       marked_columns m' = [Z.min lo (col m); Z.max hi (col m)] /\
       marked_row m' = row m /\ field m' = field m) /\
  (marked_row m <> row m \/ marked_columns m = [] ->
   exists m',
     Update m (KeyMsg " ") = Some (m', CmdNil) /\
     marked_columns m' = [col m; col m] /\
     marked_row m' = row m /\ field m' = field m).
Proof.
  intros Hcell. split.
  - intros lo hi Hmc Hrow Hle Hout. eexists. split.
    + rewrite Update_space. by eapply Update_Select_extend.
    + done.
  - intros Hfresh. eexists. split.
    + rewrite Update_space. by apply Update_Select_fresh.
    + done.
Qed.

(** The range [[0, 0]] of row 3 is extended to [[0, 2]] across the absent
    cell (3,1). *)
Lemma extend_law_witness :
  cell (field before_extend) 3 1 = Some false /\
  exists m',
    Update before_extend (KeyMsg " ") = Some (m', CmdNil) /\
    marked_columns m' = [0; 2] /\
    marked_row m' = 3 /\ field m' = field before_extend.
Proof.
  split; [reflexivity|].
  apply (proj1 (extend_law before_extend eq_refl) 0 0);
    [reflexivity | reflexivity | lia | cbn; lia].
Defined.

(** C7, as it is written, fails: with the range [[0, 2]] selected on row 3
    and the cursor on the absent cell (0,2), the select key is ignored
    (line 237): the range is not emptied and no new one is started. *)
Lemma row_change_fails_on_absent_cell : ~ row_change_as_stated.
Proof.
  intros H.
  destruct (H other_row reachable_other_row) as (m' & cmd & HU & Hsel);
    [done|].
  rewrite Update_space, Update_Select_absent in HU by reflexivity.
  injection HU as <- <-. by destruct Hsel as [?|[? _]].
Qed.

(** C7, amended (selection invariant).  On a well-formed state every event
    returns a well-formed state: its selection is empty or an ascending pair
    [[lo, hi]] of columns within [[0, cols-1]] on a row of the board.  The
    select key pressed on a present cell of a row other than [marked_row]
    drops the old range and starts [[col, col]] on the cursor's row; on an
    absent cell it changes nothing.  Whenever an event changes [marked_row],
    the range it leaves is empty or the fresh [[col, col]]: the selection
    concerns one row. *)
Theorem selection_invariant (m : model) (msg : Msg) :
  wf m ->
  exists m' cmd,
    Update m msg = Some (m', cmd) /\
    wf m' /\ empty_or_pair m' /\
    (msg = KeyMsg " " -> row m <> marked_row m ->
     (cell (field m) (row m) (col m) = Some true /\
      marked_row m' = row m /\ marked_columns m' = [col m; col m]) \/
     (cell (field m) (row m) (col m) = Some false /\ m' = m)) /\
    (marked_row m' <> marked_row m ->
     marked_columns m' = [] \/
     (marked_row m' = row m /\ marked_columns m' = [col m; col m])).
Proof.
  intros Hwf. destruct (Update_total m msg Hwf) as [[m' cmd] HU].
  exists m', cmd. split; [done|].
  pose proof (Update_preserves_wf m msg m' cmd Hwf HU) as Hwf'.
  split; [done|]. split; [|split].
  - destruct Hwf' as (_ & _ & Hsel). unfold selection_ok in Hsel.
    unfold empty_or_pair.
    destruct (marked_columns m') as [|lo [|hi [|]]]; try done; [by left|].
    right. exists lo, hi. split; [done|]. lia.
  - intros -> Hrow. rewrite Update_space in HU.
    destruct (Update_Select_wf m Hwf) as [[Hc HU']|[Hc (s & HU' & Hs)]];
      rewrite HU' in HU; injection HU as <- <-; [by right|].
    left. split; [done|]. split; [done|]. cbn.
    destruct Hs as [[-> _]|[[_ [? _]]|(? & ? & _ & ? & _)]]; done.
  - intros Hchange.
    destruct msg as [t|w h|k|]; key_cases HU;
      try (injection HU as <- <-; done).
    + apply Update_Submit_cases in HU
        as [_ [->|(lo & hi & more & _ & _ & ->)]]; [done|]. by left.
    + destruct (Update_Select_wf m Hwf) as [[Hc HU']|[Hc (s & HU' & Hs)]];
        rewrite HU' in HU; injection HU as <- <-; [done|].
      cbn in *. destruct Hs as [[-> _]|[[-> _]|(? & ? & _ & ? & _)]]; auto.
      done.
Qed.

Lemma selection_invariant_witness :
  exists m' cmd,
    Update (game_state (field session0) 2 3 3 [0; 2] 1) (KeyMsg " ")
      = Some (m', cmd) /\
    wf m' /\ empty_or_pair m' /\
    (KeyMsg " " = KeyMsg " " -> 2 <> 3 ->
     (cell (field session0) 2 3 = Some true /\
      marked_row m' = 2 /\ marked_columns m' = [3; 3]) \/
     (cell (field session0) 2 3 = Some false /\
      m' = game_state (field session0) 2 3 3 [0; 2] 1)) /\
    (marked_row m' <> 3 ->
     marked_columns m' = [] \/
     (marked_row m' = 2 /\ marked_columns m' = [3; 3])).
Proof.
  apply (selection_invariant (game_state (field session0) 2 3 3 [0; 2] 1)
           (KeyMsg " ")).
  unfold wf, shape_ok, cursor_ok, selection_ok, int_max. cbn.
  repeat split; try lia. repeat constructor.
Defined.

(** C8, as it is written, fails: the one present cell of row 0 is in
    column 3, the middle of the row, not in its last column. *)
Lemma initial_shape_not_right_aligned : ~ initial_shape_as_stated.
Proof.
  intros H.
  destruct (H "xterm"%string 80 24 0 0%nat
              [false; false; false; true; false; false; false] eq_refl)
    as (_ & _ & Hr).
  vm_compute in Hr. discriminate Hr.
Qed.

(** C8, amended (initial board).  The board of a fresh session has 4 rows of
    7 columns; row [i] holds exactly [2*i+1] present cells, and they are
    centered in the row: columns [3-i .. 3+i]. *)
Theorem initial_shape (t : string) (w h now : Z) (i : nat)
    (columns : list bool) :
  field (initial_model t w h now) !! i = Some columns ->
  length (field (initial_model t w h now)) = 4%nat /\
  rows (initial_model t w h now) = 4 /\ cols (initial_model t w h now) = 7 /\
  (i < 4)%nat /\
  length columns = 7%nat /\
  present_in columns = 2 * Z.of_nat i + 1 /\
  centered columns (2 * i + 1) = true /\
  (forall c, cell (field (initial_model t w h now)) (Z.of_nat i) c = Some true
             <-> 3 - Z.of_nat i <= c <= 3 + Z.of_nat i).
Proof.
  intros Hi.
  assert (forall c b, cell (field (initial_model t w h now)) (Z.of_nat i) c
                      = Some b -> 0 <= c < 7) as Hb.
  { intros c b Hc.
    apply (cell_bounds _ _ _ _ (wf_initial t w h now)) in Hc as [_ Hc].
    exact Hc. }
  assert (forall c, 3 - Z.of_nat i <= c <= 3 + Z.of_nat i -> (i < 4)%nat ->
            c = 0 \/ c = 1 \/ c = 2 \/ c = 3 \/ c = 4 \/ c = 5 \/ c = 6) as Hc7
    by lia.
  destruct i as [|[|[|[|i]]]]; cbn in Hi;
    [..|by destruct i]; injection Hi as <-;
    (do 7 (split; [first [reflexivity | lia | by vm_compute]|])).
  all: intros c; split.
  all: try (intros Hc; pose proof (Hb _ _ Hc) as Hr;
    assert (c = 0 \/ c = 1 \/ c = 2 \/ c = 3 \/ c = 4 \/ c = 5 \/ c = 6)
      as Hcases by lia;
    destruct Hcases as [->|[->|[->|[->|[->|[->| ->]]]]]];
    vm_compute in Hc; first [discriminate Hc | cbn; lia]).
  all: intros Hc; pose proof (Hc7 _ Hc ltac:(lia)) as Hcases;
    destruct Hcases as [->|[->|[->|[->|[->|[->| ->]]]]]];
    first [reflexivity | exfalso; lia].
Qed.

Lemma initial_shape_witness :
  length (field session0) = 4%nat /\
  rows session0 = 4 /\ cols session0 = 7 /\
  (2 < 4)%nat /\
  length [false; true; true; true; true; true; false] = 7%nat /\
  present_in [false; true; true; true; true; true; false] = 2 * Z.of_nat 2 + 1 /\
  centered [false; true; true; true; true; true; false] (2 * 2 + 1) = true /\
  (forall c, cell (field session0) (Z.of_nat 2) c = Some true
             <-> 3 - Z.of_nat 2 <= c <= 3 + Z.of_nat 2).
Proof.
  apply (initial_shape "xterm" 80 24 0 2). reflexivity.
Defined.

(** ** The renderer *)

Lemma view_cell_total m r c :
  wf m -> 0 <= r < rows m -> 0 <= c < cols m -> is_Some (view_cell m r c).
Proof.
  intros Hwf Hr Hc.
  destruct (wf_cell_bounds m r c Hwf Hr Hc) as [b Hb].
  apply cell_Some in Hb as (columns & Hi & Hj).
  unfold view_cell. rewrite Hi. cbn [mbind option_bind]. rewrite Hj.
  by eexists.
Qed.

(** C9 (indexing safety).  In every state a session can reach,
    [marked_columns] is empty or has exactly two elements, never one; so
    [marked_columns[0]] and [marked_columns[1]] are in bounds whenever the
    slice is not empty, no event and no sequence of events makes [Update]
    panic, the renderer reads every cell of the board in bounds, and
    [contains] on the selection never takes its one-element branch: it is
    the two-element range test, or false. *)
Theorem marked_columns_never_single (m : model) :
  reachable m ->
  (marked_columns m = [] \/ length (marked_columns m) = 2%nat) /\
  (length (marked_columns m) =? 1)%nat = false /\
  (marked_columns m <> [] ->
   is_Some (index (marked_columns m) 0) /\
   is_Some (index (marked_columns m) 1)) /\
  (forall msg, is_Some (Update m msg)) /\
  (forall msgs, is_Some (run m msgs)) /\
  (forall r c, 0 <= r < rows m -> 0 <= c < cols m ->
     is_Some (view_cell m r c)) /\
  (forall e,
     contains (marked_columns m) e =
     match marked_columns m with
     | [lo; hi] => (e >=? lo) && (e <=? hi)
     | _ => false
     end).
Proof.
  intros [Hwf _]%reachable_wf. pose proof Hwf as (_ & _ & Hsel).
  unfold selection_ok in Hsel.
  pose proof (view_cell_total m) as HV.
  destruct (marked_columns m) as [|lo [|hi [|]]] eqn:Hmc; try done.
  all: repeat split; try done; try (by eexists); try (by left);
    try (by right); intros;
    first [by apply Update_total | by apply run_total | by apply HV].
Qed.

Lemma marked_columns_never_single_witness :
  (marked_columns on_gap = [] \/ length (marked_columns on_gap) = 2%nat) /\
  (length (marked_columns on_gap) =? 1)%nat = false /\
  (marked_columns on_gap <> [] ->
   is_Some (index (marked_columns on_gap) 0) /\
   is_Some (index (marked_columns on_gap) 1)) /\
  (forall msg, is_Some (Update on_gap msg)) /\
  (forall msgs, is_Some (run on_gap msgs)) /\
  (forall r c, 0 <= r < rows on_gap -> 0 <= c < cols on_gap ->
     is_Some (view_cell on_gap r c)) /\
  (forall e,
     contains (marked_columns on_gap) e =
     match marked_columns on_gap with
     | [lo; hi] => (e >=? lo) && (e <=? hi)
     | _ => false
     end).
Proof.
  apply (marked_columns_never_single on_gap).
  apply (run_reachable session0 (press (gap_keys ++ [" "; "left"]%string)));
    [constructor|].
  vm_compute. reflexivity.
Defined.

(** * Further properties of the program *)

(** ** Turns, moves and the board over a whole session *)

(** What an event can do to the game: nothing to board, player and
    dimensions, or a move. *)
Lemma Update_game_cases m msg m' cmd :
  Update m msg = Some (m', cmd) ->
  (field m' = field m /\ player m' = player m /\
   rows m' = rows m /\ cols m' = cols m) \/
  exists lo hi more,
    msg = KeyMsg "enter" /\
    marked_columns m = lo :: hi :: more /\
    count_remaining m <> Some 0 /\
    m' = after_move m (clear_cells (selected (marked_row m) lo hi) (field m) 0).
Proof.
  intros HU. destruct msg as [t|w h|k|]; key_cases HU;
    try (injection HU as <- <-; by left).
  - apply Update_Submit_cases in HU as [_ [->|(lo & hi & more & ? & ? & ->)]];
      [by left|]. right. exists lo, hi, more.
    split; [|done]. f_equal.
    unfold key_Matches in Hkey0. cbn in Hkey0.
    rewrite orb_false_r in Hkey0. by apply String.eqb_eq in Hkey0.
  - apply Update_Select_frame in HU. left. tauto.
Qed.

(** A move of a session takes at least the cell at the low end of its
    range. *)
Lemma move_takes_a_cell m lo hi :
  wf m -> ends_present m -> marked_columns m = [lo; hi] ->
  available (clear_cells (selected (marked_row m) lo hi) (field m) 0)
  < available (field m).
Proof.
  intros Hwf Hends Hmc. pose proof Hwf as (_ & _ & Hsel).
  unfold selection_ok in Hsel. unfold ends_present in Hends.
  rewrite Hmc in Hsel, Hends. destruct Hends as [Hlo _].
  rewrite available_clear_cells, (available_count (field m)),
    (count_keep_split (selected (marked_row m) lo hi)).
  apply cell_Some in Hlo as (columns & [? Hr]%index_Some & [? Hc]%index_Some).
  pose proof (count_keep_pos (selected (marked_row m) lo hi) (field m) 0
                _ _ _ Hr Hc) as Hpos.
  assert (selected (marked_row m) lo hi (0 + Z.of_nat (Z.to_nat (marked_row m)))
            (Z.of_nat (Z.to_nat lo)) = true) as Hs.
  { unfold selected. rewrite !Z2Nat.id by lia. cbn.
    rewrite Z.eqb_refl. cbn. apply andb_true_intro.
    split; apply Z.leb_le; lia. }
  specialize (Hpos Hs). lia.
Qed.

Lemma player_after_move m fld :
  player m = 1 \/ player m = 2 ->
  player (after_move m fld) = 3 - player m.
Proof. intros [Hp|Hp]; cbn; rewrite Hp; reflexivity. Qed.

Lemma reachable_player m : reachable m -> player m = 1 \/ player m = 2.
Proof.
  induction 1 as [t w h now|m msg m' cmd _ IH HU]; [by left|].
  destruct (Update_game_cases m msg m' cmd HU)
    as [(_ & -> & _)|(lo & hi & more & _ & _ & _ & ->)]; [done|].
  rewrite player_after_move by done. lia.
Qed.

(** X1 (the turn).  In every state a session can reach the player to move
    is 1 or 2. *)
Theorem player_is_1_or_2 (m : model) :
  reachable m -> player m = 1 \/ player m = 2.
Proof. apply reachable_player. Qed.

Lemma player_is_1_or_2_witness :
  player last_cell_selected = 1 \/ player last_cell_selected = 2.
Proof.
  apply (player_is_1_or_2 last_cell_selected).
  apply (run_reachable session0
           (press (endgame_keys ++ ["right"; "right"; "right"; " "]%string)));
    [constructor|].
  vm_compute. reflexivity.
Defined.

(** X2 (the turn passes exactly with a move).  In a reachable state every
    event either leaves board and player as they are, or is the enter key
    played as a move: then strictly fewer cells are present and the player is
    the other one, [3 - player]. *)
Theorem turn_passes_with_a_move (m : model) (msg : Msg) (m' : model)
    (cmd : Cmd) :
  reachable m -> Update m msg = Some (m', cmd) ->
  (field m' = field m /\ player m' = player m) \/
  (msg = KeyMsg "enter" /\
   available (field m') < available (field m) /\
   player m' = 3 - player m /\ player m' <> player m).
Proof.
  intros Hm HU. destruct (reachable_wf m Hm) as [Hwf Hends].
  pose proof (reachable_player m Hm) as Hp.
  destruct (Update_game_cases m msg m' cmd HU)
    as [(? & ? & _)|(lo & hi & more & -> & Hmc & _ & ->)]; [by left|].
  right. pose proof Hwf as (_ & _ & Hsel). unfold selection_ok in Hsel.
  rewrite Hmc in Hsel. destruct more; [|done].
  rewrite player_after_move by done. cbn [field after_move].
  split; [done|]. split; [by apply move_takes_a_cell|]. lia.
Qed.

Lemma turn_passes_with_a_move_witness :
  (field (after_move inside_range
            (clear_cells (selected 3 0 2) (field inside_range) 0))
   = field inside_range /\
   player (after_move inside_range
             (clear_cells (selected 3 0 2) (field inside_range) 0))
   = player inside_range) \/
  (KeyMsg "enter" = KeyMsg "enter" /\
   available (field (after_move inside_range
                       (clear_cells (selected 3 0 2) (field inside_range) 0)))
   < available (field inside_range) /\
   player (after_move inside_range
             (clear_cells (selected 3 0 2) (field inside_range) 0))
   = 3 - player inside_range /\
   player (after_move inside_range
             (clear_cells (selected 3 0 2) (field inside_range) 0))
   <> player inside_range).
Proof.
  apply (turn_passes_with_a_move inside_range (KeyMsg "enter") _ CmdNil).
  - apply (run_reachable session0
             (press ["down"; "down"; "down"; " "; "right"; "right"; " ";
                     "left"]%string)); [constructor|].
    vm_compute. reflexivity.
  - vm_compute. reflexivity.
Defined.

Lemma cell_after_clear sel fld r c :
  cell (clear_cells sel fld 0) r c = Some true -> cell fld r c = Some true.
Proof.
  rewrite cell_clear_cells. destruct (cell fld r c) as [[]|]; cbn; [done| |done].
  by destruct (sel r c).
Qed.

Lemma reachable_board m :
  reachable m ->
  rows m = 4 /\ cols m = 7 /\
  1 <= available (field m) <= 16 /\
  (forall r c, cell (field m) r c = Some true ->
               cell (field session0) r c = Some true).
Proof.
  induction 1 as [t w h now|m msg m' cmd Hm (Hr & Hc & Ha & Hsub) HU].
  - repeat split; try done; vm_compute; done.
  - destruct (Update_game_cases m msg m' cmd HU)
      as [(-> & _ & -> & ->)|(lo & hi & more & _ & Hmc & Hrem & ->)]; [done|].
    cbn [field rows cols after_move].
    rewrite (available_after_move m lo hi more Hmc) in Hrem.
    pose proof (available_nonneg
      (clear_cells (selected (marked_row m) lo hi) (field m) 0)).
    pose proof (count_keep_le_available
      (fun i j => negb (selected (marked_row m) lo hi i j)) (field m)).
    rewrite <- available_clear_cells in *.
    repeat split; try done; try lia.
    + destruct (decide (available
        (clear_cells (selected (marked_row m) lo hi) (field m) 0) = 0))
        as [E|E]; [by rewrite E in Hrem | lia].
    + intros r c Hcell. by apply cell_after_clear, Hsub in Hcell.
Qed.

(** X3 (the board of a session).  In every reachable state between 1 and 16
    cells are present (the board is never emptied) and every present cell is
    a cell of the initial triangle: no cell is ever added. *)
Theorem board_never_empty (m : model) :
  reachable m ->
  1 <= available (field m) <= 16 /\
  (forall r c, cell (field m) r c = Some true ->
               cell (field session0) r c = Some true).
Proof. intros Hm. by apply reachable_board in Hm as (_ & _ & ? & ?). Qed.

Lemma board_never_empty_witness :
  1 <= available (field last_cell) <= 16 /\
  (forall r c, cell (field last_cell) r c = Some true ->
               cell (field session0) r c = Some true).
Proof.
  apply (board_never_empty last_cell).
  apply (run_reachable session0 (press endgame_keys)); [constructor|].
  vm_compute. reflexivity.
Defined.

(** X4 (dimensions and cursor).  In every reachable state the board is 4
    rows of 7 cells, [rows] is 4 and [cols] is 7, and the cursor is on the
    board: [0 <= row <= 3] and [0 <= col <= 6]. *)
Theorem cursor_on_board (m : model) :
  reachable m ->
  rows m = 4 /\ cols m = 7 /\
  length (field m) = 4%nat /\
  Forall (fun columns => length columns = 7%nat) (field m) /\
  0 <= row m <= 3 /\ 0 <= col m <= 6 /\
  is_Some (cell (field m) (row m) (col m)).
Proof.
  intros Hm. pose proof (reachable_board m Hm) as (Hr & Hc & _).
  destruct (reachable_wf m Hm) as [Hwf _].
  pose proof Hwf as ((Hrows & Hcols & _) & Hcur & _). unfold cursor_ok in Hcur.
  repeat split; try lia.
  - eapply Forall_impl; [exact Hcols|]. intros columns Hl. cbn in Hl. lia.
  - destruct (wf_cell_bounds m (row m) (col m) Hwf) as [b Hb]; [lia..|].
    by exists b.
Qed.

Lemma cursor_on_board_witness :
  rows on_gap = 4 /\ cols on_gap = 7 /\
  length (field on_gap) = 4%nat /\
  Forall (fun columns => length columns = 7%nat) (field on_gap) /\
  0 <= row on_gap <= 3 /\ 0 <= col on_gap <= 6 /\
  is_Some (cell (field on_gap) (row on_gap) (col on_gap)).
Proof.
  apply (cursor_on_board on_gap).
  apply (run_reachable session0 (press (gap_keys ++ [" "; "left"]%string)));
    [constructor|].
  vm_compute. reflexivity.
Defined.

Lemma moves_played_bound m msgs :
  reachable m ->
  Z.of_nat (moves_played m msgs) <= available (field m) - 1.
Proof.
  revert m. induction msgs as [|msg rest IH]; intros m Hm.
  - cbn. pose proof (reachable_board m Hm) as (_ & _ & ? & _). lia.
  - cbn [moves_played].
    pose proof (reachable_board m Hm) as (_ & _ & Ha & _).
    destruct (Update m msg) as [[m' []]|] eqn:HU; [|cbn; lia..].
    assert (reachable m') as Hm' by (by eapply reachable_step).
    specialize (IH m' Hm').
    destruct (reachable_wf m Hm) as [Hwf Hends].
    destruct (Update_game_cases m msg m' CmdNil HU)
      as [(Hf & _)|(lo & hi & more & _ & Hmc & _ & ->)].
    + rewrite bool_decide_eq_true_2 by done. rewrite Hf in IH. lia.
    + pose proof Hwf as (_ & _ & Hsel). unfold selection_ok in Hsel.
      rewrite Hmc in Hsel. destruct more; [|done].
      pose proof (move_takes_a_cell m lo hi Hwf Hends Hmc).
      cbn [field after_move] in *.
      destruct (bool_decide _); lia.
Qed.

(** X5 (length of a game).  Whatever messages a session receives, at most
    15 of them change the board: a game has at most 15 moves; and 15 moves
    are possible, taking the cells one at a time. *)
Theorem at_most_15_moves (t : string) (w h now : Z) :
  (forall msgs, (moves_played (initial_model t w h now) msgs <= 15)%nat) /\
  moves_played (initial_model t w h now) (press one_by_one) = 15%nat.
Proof.
  split.
  - intros msgs.
    pose proof (moves_played_bound (initial_model t w h now) msgs
                  (reachable_initial t w h now)) as H.
    change (available (field (initial_model t w h now))) with 16 in H. lia.
  - vm_compute. reflexivity.
Qed.

(** X6 (enter twice).  Whatever the state, if the enter key returns a model
    then the enter key pressed again returns that same model: two presses
    never play two moves. *)
Theorem enter_twice (m m' : model) (cmd : Cmd) :
  Update m (KeyMsg "enter") = Some (m', cmd) ->
  Update m' (KeyMsg "enter") = Some (m', CmdNil).
Proof.
  intros HU. rewrite Update_enter in *.
  pose proof (Update_Submit_cases m m' cmd HU)
    as [-> [->|(lo & hi & more & _ & _ & ->)]]; [done|].
  by apply Update_Submit_empty.
Qed.

Lemma enter_twice_witness :
  Update (after_move inside_range
            (clear_cells (selected 3 0 2) (field inside_range) 0))
    (KeyMsg "enter")
  = Some (after_move inside_range
            (clear_cells (selected 3 0 2) (field inside_range) 0), CmdNil).
Proof.
  apply (enter_twice inside_range _ CmdNil). vm_compute. reflexivity.
Defined.

(** X7 (ends of a selection).  In every reachable state with the selection
    [[lo, hi]], the cells [(marked_row, lo)] and [(marked_row, hi)] are
    present, [lo <= hi], and the enter key, if it is a move, takes at least
    one cell. *)
Theorem selection_ends_present (m : model) (lo hi : Z) :
  reachable m -> marked_columns m = [lo; hi] ->
  cell (field m) (marked_row m) lo = Some true /\
  cell (field m) (marked_row m) hi = Some true /\
  lo <= hi /\
  available (clear_cells (selected (marked_row m) lo hi) (field m) 0)
  < available (field m).
Proof.
  intros Hm Hmc. destruct (reachable_wf m Hm) as [Hwf Hends].
  pose proof (move_takes_a_cell m lo hi Hwf Hends Hmc).
  pose proof Hwf as (_ & _ & Hsel).
  unfold selection_ok in Hsel. unfold ends_present in Hends.
  rewrite Hmc in Hsel, Hends. destruct Hends. repeat split; try done. lia.
Qed.

Lemma selection_ends_present_witness :
  cell (field on_gap) (marked_row on_gap) 0 = Some true /\
  cell (field on_gap) (marked_row on_gap) 2 = Some true /\
  0 <= 2 /\
  available (clear_cells (selected (marked_row on_gap) 0 2) (field on_gap) 0)
  < available (field on_gap).
Proof.
  apply (selection_ends_present on_gap 0 2).
  - apply (run_reachable session0 (press (gap_keys ++ [" "; "left"]%string)));
      [constructor|].
    vm_compute. reflexivity.
  - reflexivity.
Defined.

(** ** Keys *)

Lemma key_Matches_In k b : key_Matches k b = true <-> In k (Keys b).
Proof.
  unfold key_Matches. rewrite existsb_exists. split.
  - intros (x & Hx & ->%String.eqb_eq). done.
  - intros Hk. exists k. split; [done|]. apply String.eqb_refl.
Qed.

(** X8 (one key, one action).  Whatever key is pressed, at most one of the
    eight bindings listed by [FullHelp] matches it: the order of the cases of
    [Update] decides nothing.  The short help lists bindings of the full
    help. *)
Theorem keys_are_disjoint (k : string) :
  (length (List.filter (key_Matches k) (concat (FullHelp keys))) <= 1)%nat /\
  (forall b, In b (ShortHelp keys) -> In b (concat (FullHelp keys))).
Proof.
  split.
  - unfold key_Matches. cbn.
    repeat match goal with
    | |- context [String.eqb k ?s] =>
        destruct (String.eqb_spec k s) as [->|?]; [vm_compute; lia|]
    end.
    cbn. lia.
  - cbn. intros b [<-|[<-|[]]]; tauto.
Qed.

(** ** Moving the cursor *)

Lemma Update_down m :
  Update m (KeyMsg "down") =
  Some (with_row m (if wrap (row m + 1) >? wrap (rows m - 2)
                    then wrap (rows m - 1) else wrap (row m + 1)), CmdNil).
Proof. reflexivity. Qed.

Lemma Update_j m : Update m (KeyMsg "j") = Update m (KeyMsg "down").
Proof. reflexivity. Qed.

Lemma Update_up m :
  Update m (KeyMsg "up") =
  Some (with_row m (if wrap (row m - 1) <? 0 then 0 else wrap (row m - 1)),
        CmdNil).
Proof. reflexivity. Qed.

Lemma Update_k m : Update m (KeyMsg "k") = Update m (KeyMsg "up").
Proof. reflexivity. Qed.

Lemma Update_right m :
  Update m (KeyMsg "right") =
  Some (with_col m (if wrap (col m + 1) >? wrap (cols m - 2)
                    then wrap (cols m - 1) else wrap (col m + 1)), CmdNil).
Proof. reflexivity. Qed.

Lemma Update_l m : Update m (KeyMsg "l") = Update m (KeyMsg "right").
Proof. reflexivity. Qed.

Lemma Update_left m :
  Update m (KeyMsg "left") =
  Some (with_col m (if wrap (col m - 1) <? 0 then 0 else wrap (col m - 1)),
        CmdNil).
Proof. reflexivity. Qed.

Lemma Update_h m : Update m (KeyMsg "h") = Update m (KeyMsg "left").
Proof. reflexivity. Qed.

Lemma clamp_up (x n : Z) :
  0 <= x < n -> n <= int_max ->
  (if wrap (x + 1) >? wrap (n - 2) then wrap (n - 1) else wrap (x + 1))
  = Z.min (x + 1) (n - 1).
Proof.
  intros Hx Hn. unfold int_max in Hn.
  rewrite !wrap_id by (unfold int_min, int_max; lia).
  destruct (_ >? _) eqn:E; bool_to_prop; lia.
Qed.

Lemma clamp_down (x n : Z) :
  0 <= x < n -> n <= int_max ->
  (if wrap (x - 1) <? 0 then 0 else wrap (x - 1)) = Z.max (x - 1) 0.
Proof.
  intros Hx Hn. unfold int_max in Hn.
  rewrite !wrap_id by (unfold int_min, int_max; lia).
  destruct (_ <? _) eqn:E; bool_to_prop; lia.
Qed.

(** X9 (cursor keys clamp).  On a well-formed state a cursor key changes
    nothing but the cursor: down and up (or j and k) move the row by one,
    right and left (or l and h) the column, and the move stops at the edge of
    the board: the new coordinate is [min (x + 1) (n - 1)] or
    [max (x - 1) 0]. *)
Theorem cursor_keys_clamp (m : model) (k : string) :
  wf m ->
  (In k (Keys (Down keys)) ->
   Update m (KeyMsg k)
   = Some (with_row m (Z.min (row m + 1) (rows m - 1)), CmdNil)) /\
  (In k (Keys (Up keys)) ->
   Update m (KeyMsg k) = Some (with_row m (Z.max (row m - 1) 0), CmdNil)) /\
  (In k (Keys (Right keys)) ->
   Update m (KeyMsg k)
   = Some (with_col m (Z.min (col m + 1) (cols m - 1)), CmdNil)) /\
  (In k (Keys (Left keys)) ->
   Update m (KeyMsg k) = Some (with_col m (Z.max (col m - 1) 0), CmdNil)).
Proof.
  intros ((_ & _ & Hr & Hc) & [Hrow Hcol] & _).
  repeat split; intros Hk; cbn in Hk; destruct Hk as [<-|[<-|[]]].
  - rewrite Update_down, clamp_up; [done|lia..].
  - rewrite Update_j, Update_down, clamp_up; [done|lia..].
  - rewrite Update_up, (clamp_down _ (rows m)); [done|lia..].
  - rewrite Update_k, Update_up, (clamp_down _ (rows m)); [done|lia..].
  - rewrite Update_right, clamp_up; [done|lia..].
  - rewrite Update_l, Update_right, clamp_up; [done|lia..].
  - rewrite Update_left, (clamp_down _ (cols m)); [done|lia..].
  - rewrite Update_h, Update_left, (clamp_down _ (cols m)); [done|lia..].
Qed.

Lemma cursor_keys_clamp_witness :
  (In "j"%string (Keys (Down keys)) ->
   Update on_gap (KeyMsg "j")
   = Some (with_row on_gap (Z.min (row on_gap + 1) (rows on_gap - 1)),
           CmdNil)) /\
  (In "j"%string (Keys (Up keys)) ->
   Update on_gap (KeyMsg "j")
   = Some (with_row on_gap (Z.max (row on_gap - 1) 0), CmdNil)) /\
  (In "j"%string (Keys (Right keys)) ->
   Update on_gap (KeyMsg "j")
   = Some (with_col on_gap (Z.min (col on_gap + 1) (cols on_gap - 1)),
           CmdNil)) /\
  (In "j"%string (Keys (Left keys)) ->
   Update on_gap (KeyMsg "j")
   = Some (with_col on_gap (Z.max (col on_gap - 1) 0), CmdNil)).
Proof.
  apply (cursor_keys_clamp on_gap "j").
  unfold wf, shape_ok, cursor_ok, selection_ok, int_max. cbn.
  repeat split; try lia. repeat constructor.
Defined.

Lemma with_row_id m r : r = row m -> with_row m r = m.
Proof. intros ->. by destruct m. Qed.

Lemma with_col_id m c : c = col m -> with_col m c = m.
Proof. intros ->. by destruct m. Qed.

Lemma with_row_twice m r1 r2 : with_row (with_row m r1) r2 = with_row m r2.
Proof. reflexivity. Qed.

Lemma with_col_twice m c1 c2 : with_col (with_col m c1) c2 = with_col m c2.
Proof. reflexivity. Qed.

(** X10 (there and back).  On a well-formed state a cursor key followed by
    the opposite one restores the model exactly when the first one was not
    stopped by the edge; from the last row, down then up ends one row
    higher, and from the first row, up then down ends one row lower (on a
    board of two rows or more).  The same holds for columns. *)
Theorem cursor_there_and_back (m : model) :
  wf m ->
  (row m < rows m - 1 -> run m (press ["down"; "up"]%string) = Some m) /\
  (0 < row m -> run m (press ["up"; "down"]%string) = Some m) /\
  (col m < cols m - 1 -> run m (press ["right"; "left"]%string) = Some m) /\
  (0 < col m -> run m (press ["left"; "right"]%string) = Some m) /\
  (row m = rows m - 1 -> 1 < rows m ->
   run m (press ["down"; "up"]%string) = Some (with_row m (rows m - 2))) /\
  (row m = 0 -> 1 < rows m ->
   run m (press ["up"; "down"]%string) = Some (with_row m 1)) /\
  (col m = cols m - 1 -> 1 < cols m ->
   run m (press ["right"; "left"]%string) = Some (with_col m (cols m - 2))) /\
  (col m = 0 -> 1 < cols m ->
   run m (press ["left"; "right"]%string) = Some (with_col m 1)).
Proof.
  intros ((_ & _ & Hr & Hc) & [Hrow Hcol] & _).
  unfold press. cbn [fmap list_fmap run].
  repeat split; intros;
    repeat (rewrite ?Update_down, ?Update_up, ?Update_right, ?Update_left;
            cbn [row col rows cols with_row with_col]);
    repeat first [ rewrite clamp_up by lia
                 | rewrite (clamp_down _ (rows m)) by lia
                 | rewrite (clamp_down _ (cols m)) by lia ];
    f_equal; rewrite ?with_row_twice, ?with_col_twice;
    first [ apply with_row_id; lia | apply with_col_id; lia
          | f_equal; lia ].
Qed.

Lemma cursor_there_and_back_witness :
  (row on_gap < rows on_gap - 1 ->
   run on_gap (press ["down"; "up"]%string) = Some on_gap) /\
  (0 < row on_gap -> run on_gap (press ["up"; "down"]%string) = Some on_gap) /\
  (col on_gap < cols on_gap - 1 ->
   run on_gap (press ["right"; "left"]%string) = Some on_gap) /\
  (0 < col on_gap ->
   run on_gap (press ["left"; "right"]%string) = Some on_gap) /\
  (row on_gap = rows on_gap - 1 -> 1 < rows on_gap ->
   run on_gap (press ["down"; "up"]%string)
   = Some (with_row on_gap (rows on_gap - 2))) /\
  (row on_gap = 0 -> 1 < rows on_gap ->
   run on_gap (press ["up"; "down"]%string) = Some (with_row on_gap 1)) /\
  (col on_gap = cols on_gap - 1 -> 1 < cols on_gap ->
   run on_gap (press ["right"; "left"]%string)
   = Some (with_col on_gap (cols on_gap - 2))) /\
  (col on_gap = 0 -> 1 < cols on_gap ->
   run on_gap (press ["left"; "right"]%string) = Some (with_col on_gap 1)).
Proof.
  apply (cursor_there_and_back on_gap).
  unfold wf, shape_ok, cursor_ok, selection_ok, int_max. cbn.
  repeat split; try lia. repeat constructor.
Defined.

(** ** Messages that are not moves *)

(** X11 (help key).  Whatever the state, the help key flips [ShowAll] and
    nothing else, and pressed twice it restores the model. *)
Theorem help_key_twice (m : model) :
  run m (press ["?"; "?"]%string) = Some m /\
  Update m (KeyMsg "?") = Some (with_ShowAll m (negb (ShowAll (help m))), CmdNil) /\
  game_part (with_ShowAll m (negb (ShowAll (help m)))) = game_part m /\
  Width (help (with_ShowAll m (negb (ShowAll (help m))))) = Width (help m).
Proof.
  repeat split. destruct m as [? ? ? ? [sa wd] ? ? ? ? ? ? ? ?]. cbn.
  by rewrite negb_involutive.
Qed.

(** X13 (what touches the game).  Whatever the state, a message that changes
    board, cursor, selection, player or dimensions is one of the keys bound
    to submit, select, down, up, right or left: ticks, resizes, other
    messages, the help and quit keys and unbound keys never do. *)
Theorem only_game_keys_touch_the_game (m : model) (msg : Msg) (m' : model)
    (cmd : Cmd) :
  Update m msg = Some (m', cmd) ->
  game_part m' <> game_part m ->
  exists k,
    msg = KeyMsg k /\
    (In k (Keys (Submit keys)) \/ In k (Keys (Select keys)) \/
     In k (Keys (Down keys)) \/ In k (Keys (Up keys)) \/
     In k (Keys (Right keys)) \/ In k (Keys (Left keys))).
Proof.
  intros HU Hne.
  destruct msg as [t|w h|k|]; key_cases HU;
    try (injection HU as <- <-; by destruct Hne);
    exists k; (split; [done|]);
    rewrite <- !key_Matches_In; auto 10.
Qed.

Lemma only_game_keys_touch_the_game_witness :
  exists k,
    KeyMsg "l" = KeyMsg k /\
    (In k (Keys (Submit keys)) \/ In k (Keys (Select keys)) \/
     In k (Keys (Down keys)) \/ In k (Keys (Up keys)) \/
     In k (Keys (Right keys)) \/ In k (Keys (Left keys))).
Proof.
  apply (only_game_keys_touch_the_game on_gap (KeyMsg "l")
           (with_col on_gap 2) CmdNil).
  - reflexivity.
  - vm_compute. discriminate.
Defined.

Lemma Update_quit_iff m msg m' :
  Update m msg = Some (m', CmdQuit) <->
  m' = m /\ exists k, msg = KeyMsg k /\ In k (Keys (Quit keys)).
Proof.
  split.
  - intros HU. destruct msg as [t|w h|k|]; key_cases HU; try done.
    + injection HU as <-. split; [done|]. exists k. split; [done|].
      by apply key_Matches_In in Hkey.
    + by apply Update_Submit_cases in HU as [? _].
    + by apply Update_Select_frame in HU as [? _].
  - intros [-> (k & -> & Hk)]. unfold Update.
    by apply (key_Matches_In k (Quit keys)) in Hk as ->.
Qed.

(** X14 (quit).  Whatever the state, [Update] returns the quit command
    exactly for the keys q, esc and ctrl+c, and it returns the model it was
    given with it. *)
Theorem quit_only_on_quit_keys (m : model) (msg : Msg) (m' : model) :
  Update m msg = Some (m', CmdQuit) <->
  m' = m /\ exists k, msg = KeyMsg k /\ In k ["q"; "esc"; "ctrl+c"]%string.
Proof. apply Update_quit_iff. Qed.

Lemma run_app m a b :
  Forall (fun msg => forall k, msg = KeyMsg k -> ~ In k (Keys (Quit keys))) a ->
  run m (a ++ b) = run m a ≫= fun m1 => run m1 b.
Proof.
  intros Ha. revert m. induction Ha as [|msg a Hmsg Ha IH]; intros m; [done|].
  cbn [app run].
  destruct (Update m msg) as [[m1 []]|] eqn:HU; [apply IH| |done].
  exfalso. apply Update_quit_iff in HU as [_ (k & -> & Hk)].
  by apply (Hmsg k).
Qed.

(** ** The select key, whatever the state *)

(** X17 (select touches only the selection).  Whatever the state: with the
    cursor off the board the select key panics, on an absent cell it returns
    the model it was given, and whenever it returns it has changed nothing
    but [marked_row] and [marked_columns], the cursor is on the board, and on
    a present cell the selection is then on the cursor's row. *)
Theorem select_touches_only_selection (m : model) :
  (cell (field m) (row m) (col m) = None -> Update m (KeyMsg " ") = None) /\
  (cell (field m) (row m) (col m) = Some false ->
   Update m (KeyMsg " ") = Some (m, CmdNil)) /\
  (forall m' cmd,
     Update m (KeyMsg " ") = Some (m', cmd) ->
     cmd = CmdNil /\
     is_Some (cell (field m) (row m) (col m)) /\
     field m' = field m /\ row m' = row m /\ col m' = col m /\
     rows m' = rows m /\ cols m' = cols m /\ player m' = player m /\
     width m' = width m /\ height m' = height m /\ time m' = time m /\
     help m' = help m /\ term m' = term m /\
     (cell (field m) (row m) (col m) = Some true -> marked_row m' = row m)).
Proof.
  rewrite Update_space. split; [|split].
  - unfold cell, Update_Select. intros Hc.
    destruct (index (field m) (row m)) as [columns|]; [|done].
    cbn [mbind option_bind] in *. by rewrite Hc.
  - apply Update_Select_absent.
  - intros m' cmd HU. unfold cell. unfold Update_Select in HU.
    destruct (index (field m) (row m)) as [columns|]; [|done].
    cbn [mbind option_bind] in *.
    destruct (index columns (col m)) as [[]|]; [| |done];
      cbn [mbind option_bind negb] in HU.
    + destruct (if (0 <? length _)%nat then _ else _) as [[]|] in HU; [| |done];
        cbn [mbind option_bind] in HU; injection HU as <- <-;
        destruct (negb _); by repeat split.
    + injection HU as <- <-. by repeat split.
Qed.

(** ** [contains] and the drawing of the board *)

Lemma contains_iff (s : list Z) (e : Z) :
  contains s e = true <->
  s = [e] \/ exists lo hi, s = [lo; hi] /\ lo <= e <= hi.
Proof.
  destruct s as [|a [|b [|c s]]]; cbn.
  - split; [done|]. by intros [?|(? & ? & ? & _)].
  - rewrite Z.eqb_eq. split.
    + intros ->. by left.
    + by intros [[= ->]|(? & ? & ? & _)].
  - rewrite Z.geb_leb, andb_true_iff, !Z.leb_le. split.
    + intros ?. right. by exists a, b.
    + by intros [?|(? & ? & [= -> ->] & ?)].
  - split; [done|]. by intros [?|(? & ? & ? & _)].
Qed.

(** ** [available] on any board *)

Lemma present_in_cons b columns :
  present_in (b :: columns) = (if b : bool then 1 else 0) + present_in columns.
Proof.
  unfold present_in. rewrite filter_cons.
  destruct b; destruct (decide _); try done; cbn [length]; lia.
Qed.

Lemma present_in_app l1 l2 :
  present_in (l1 ++ l2) = present_in l1 + present_in l2.
Proof. unfold present_in. rewrite filter_app, length_app. lia. Qed.

Lemma count_keep_columns_true columns c :
  count_keep_columns (fun _ => true) columns c = present_in columns.
Proof.
  revert c. induction columns as [|b rest IH]; intros c; [done|].
  cbn [count_keep_columns]. rewrite IH, present_in_cons. by destruct b.
Qed.

Lemma count_keep_true_shift fld r r' :
  count_keep (fun _ _ => true) fld r = count_keep (fun _ _ => true) fld r'.
Proof.
  revert r r'. induction fld as [|cs rest IH]; intros r r'; [done|].
  cbn [count_keep]. by rewrite (IH (r + 1) (r' + 1)).
Qed.

Lemma available_cons columns fld :
  available (columns :: fld) = present_in columns + available fld.
Proof.
  rewrite !available_count. cbn [count_keep].
  by rewrite count_keep_columns_true, (count_keep_true_shift fld (0 + 1) 0).
Qed.

Lemma available_present_in fld : available fld = present_in (concat fld).
Proof.
  induction fld as [|columns rest IH]; [done|].
  cbn [concat]. by rewrite available_cons, present_in_app, IH.
Qed.

Lemma present_in_pos columns :
  0 < present_in columns -> exists j, columns !! j = Some true.
Proof.
  induction columns as [|b rest IH]; [by vm_compute|].
  rewrite present_in_cons. destruct b.
  - intros _. by exists 0%nat.
  - intros [j Hj]%IH. by exists (S j).
Qed.

Lemma available_pos fld :
  0 < available fld -> exists r c, cell fld r c = Some true.
Proof.
  induction fld as [|columns rest IH]; [by vm_compute|].
  rewrite available_cons. intros Hpos.
  destruct (decide (0 < present_in columns)) as [Hc|Hc].
  - apply present_in_pos in Hc as [j Hj]. exists 0, (Z.of_nat j).
    apply cell_Some. exists columns. split; [done|].
    apply index_Some. split; [lia|]. by rewrite Nat2Z.id.
  - assert (0 <= present_in columns) by (unfold present_in; lia).
    destruct IH as (r & c & Hcell); [lia|].
    exists (r + 1), c.
    apply cell_Some in Hcell as (cs & [Hr Hl]%index_Some & Hcs).
    apply cell_Some. exists cs. split; [|done].
    apply index_Some. split; [lia|].
    replace (Z.to_nat (r + 1)) with (S (Z.to_nat r)) by lia. done.
Qed.

(** X20 ([available]).  On any board [available] is the number of [true]
    flags of all rows together: it lies between 0 and the number of cells,
    it is additive over rows, and it is 0 exactly when no cell is present. *)
Theorem available_counts_present_cells (fld : list (list bool)) :
  available fld = present_in (concat fld) /\
  0 <= available fld <= Z.of_nat (length (concat fld)) /\
  (forall fld2, available (fld ++ fld2) = available fld + available fld2) /\
  (available fld = 0 <-> forall r c, cell fld r c <> Some true).
Proof.
  split; [apply available_present_in|]. split; [|split].
  - rewrite available_present_in. unfold present_in.
    pose proof (length_filter (fun b : bool => b = true) (concat fld)). lia.
  - intros fld2. rewrite !available_present_in, concat_app.
    apply present_in_app.
  - pose proof (available_nonneg fld). split.
    + intros H0 r c Hcell.
      apply cell_Some in Hcell as (cs & [? Hr]%index_Some & [? Hc]%index_Some).
      pose proof (count_keep_pos (fun _ _ => true) fld 0 _ _ _ Hr Hc eq_refl).
      rewrite available_count in H0. lia.
    + intros Hnone. destruct (decide (available fld = 0)) as [|Hne]; [done|].
      destruct (available_pos fld) as (r & c & Hcell); [lia|].
      by destruct (Hnone r c).
Qed.

(** ** Sorting and collapsing the selection (lines 255-259) *)

Lemma insert_sorted_perm x s : insert_sorted x s ≡ₚ x :: s.
Proof.
  induction s as [|y s IH]; cbn; [done|].
  destruct (x <=? y); [done|]. by rewrite IH, Permutation_swap.
Qed.

Lemma sort_Slice_perm s : sort_Slice s ≡ₚ s.
Proof.
  induction s as [|x s IH]; cbn; [done|].
  by rewrite insert_sorted_perm, IH.
Qed.

Lemma insert_sorted_sorted x s :
  StronglySorted Z.le s -> StronglySorted Z.le (insert_sorted x s).
Proof.
  induction s as [|y s IH]; cbn; intros Hs.
  - repeat constructor.
  - apply StronglySorted_cons in Hs as [Hy Hs].
    destruct (x <=? y) eqn:E; bool_to_prop.
    + apply StronglySorted_cons. split.
      * constructor; [done|]. eapply Forall_impl; [exact Hy|].
        intros z Hz. cbn in Hz. lia.
      * by apply StronglySorted_cons.
    + apply StronglySorted_cons. split; [|by apply IH].
      rewrite insert_sorted_perm. constructor; [lia|done].
Qed.

Lemma sort_Slice_sorted s : StronglySorted Z.le (sort_Slice s).
Proof.
  induction s as [|x s IH]; cbn; [constructor|].
  by apply insert_sorted_sorted.
Qed.

Lemma first_and_last_snoc a init z :
  first_and_last (a :: init ++ [z]) = [a; z].
Proof.
  unfold first_and_last. cbn [take length app].
  rewrite length_app. cbn [length].
  replace (S (length init + 1) - 1)%nat with (S (length init)) by lia.
  cbn [drop]. by rewrite drop_app_length.
Qed.

(** X21 (collapse to the two ends).  Whatever the slice [s] and the column
    [c], sorting [append(s, c)] and keeping its first and last element
    yields a pair [[lo, hi]] of elements of the appended slice with every
    element between them: its minimum and its maximum. *)
Theorem collapse_is_min_max (s : list Z) (c : Z) :
  exists lo hi,
    first_and_last (sort_Slice (s ++ [c])) = [lo; hi] /\
    lo ∈ s ++ [c] /\ hi ∈ s ++ [c] /\
    (forall y, y ∈ s ++ [c] -> lo <= y <= hi).
Proof.
  pose proof (sort_Slice_perm (s ++ [c])) as Hperm.
  pose proof (sort_Slice_sorted (s ++ [c])) as Hsort.
  assert (forall y, y ∈ s ++ [c] <-> y ∈ sort_Slice (s ++ [c])) as Hin.
  { intros y. by rewrite Hperm. }
  setoid_rewrite Hin. clear Hin Hperm.
  destruct (sort_Slice (s ++ [c])) as [|a t] eqn:E.
  { exfalso. pose proof (sort_Slice_perm (s ++ [c])) as Hperm.
    rewrite E in Hperm. apply Permutation_nil_l in Hperm. by destruct s. }
  destruct (decide (t = [])) as [->|Ht].
  - exists a, a. split; [done|]. setoid_rewrite list_elem_of_singleton.
    repeat split; try done; intros; lia.
  - destruct (exists_last Ht) as (init & z & ->).
    exists a, z. split; [apply first_and_last_snoc|].
    apply StronglySorted_cons in Hsort as [Ha Hsort].
    rewrite Forall_forall in Ha.
    rewrite StronglySorted_app in Hsort. destruct Hsort as (Hz & _ & _).
    setoid_rewrite elem_of_cons. setoid_rewrite elem_of_app.
    setoid_rewrite list_elem_of_singleton.
    setoid_rewrite elem_of_app in Ha.
    setoid_rewrite list_elem_of_singleton in Ha.
    setoid_rewrite list_elem_of_singleton in Hz.
    assert (a <= z) by (apply Ha; auto).
    split; [auto|]. split; [auto|].
    intros y [->|[Hy| ->]]; [lia| |lia].
    split; [apply Ha; auto|]. by apply Hz.
Qed.

(** ** The clearing loop (lines 222-225) *)

Lemma clear_loop_is_Some fld r c n :
  is_Some (clear_loop fld r c n) ->
  n = 0%nat \/
  exists columns,
    index fld r = Some columns /\ 0 <= c /\
    c + Z.of_nat n <= Z.of_nat (length columns).
Proof.
  revert fld c. induction n as [|n IH]; intros fld c [fld' H]; [by left|].
  right. cbn [clear_loop] in H.
  destruct (store fld r c false) as [fld1|] eqn:Hs; [|done]. cbn in H.
  unfold store in Hs.
  destruct (index fld r) as [columns|] eqn:Hr; [|done]. cbn in Hs.
  destruct (index columns c) as [b|] eqn:Hc; [|done]. injection Hs as <-.
  exists columns. split; [done|]. pose proof (index_lt _ _ _ Hc).
  split; [lia|].
  destruct (IH _ _ (ex_intro _ fld' H)) as [->|(columns1 & Hr1 & _ & Hlen)];
    [lia|].
  apply index_Some in Hr as [Hr0 Hr].
  apply index_Some in Hr1 as [_ Hr1].
  rewrite list_lookup_insert_eq in Hr1 by (by eapply lookup_lt_Some).
  injection Hr1 as <-. rewrite length_insert in Hlen. lia.
Qed.

(** X23 (the clearing loop).  The loop of line 223 over [n] columns from
    [c] in row [r] panics exactly when it has an iteration to run and the row
    does not exist or the columns do not all lie in it; a loop that returns
    has made exactly the cells of these columns absent, and run again on its
    result it returns the same board. *)
Theorem clear_loop_bounds (fld : list (list bool)) (r c : Z) (n : nat) :
  (is_Some (clear_loop fld r c n) <->
   n = 0%nat \/
   exists columns,
     index fld r = Some columns /\ 0 <= c /\
     c + Z.of_nat n <= Z.of_nat (length columns)) /\
  (forall fld',
     clear_loop fld r c n = Some fld' ->
     (forall r' c',
        cell fld' r' c' =
        if decide (r' = r /\ c <= c' <= c + Z.of_nat n - 1)
        then const false <$> cell fld r' c' else cell fld r' c') /\
     clear_loop fld' r c n = Some fld').
Proof.
  split.
  - split; [apply clear_loop_is_Some|].
    intros [->|(columns & Hr & Hc & Hn)]; [by eexists|].
    by eapply clear_loop_total.
  - intros fld' Hl. pose proof (clear_loop_spec _ _ _ _ _ Hl) as Hspec.
    split.
    + intros r' c'. rewrite Hspec, cell_clear_cells. unfold selected.
      destruct (decide _) as [[-> [? ?]]|Hne].
      * rewrite Z.eqb_refl. cbn.
        replace (c <=? c') with true by (symmetry; apply Z.leb_le; lia).
        replace (c' <=? c + Z.of_nat n - 1) with true
          by (symmetry; apply Z.leb_le; lia).
        cbn. by destruct (cell fld r c').
      * destruct (r' =? r) eqn:E1, (c <=? c') eqn:E2,
          (c' <=? c + Z.of_nat n - 1) eqn:E3; cbn;
          try (by destruct (cell fld r' c')).
        bool_to_prop. destruct Hne. lia.
    + destruct (clear_loop_is_Some fld r c n) as [->|(columns & Hr & Hc & Hn)];
        [by eexists| |].
      { cbn in Hl. by injection Hl as <-. }
      destruct (clear_loop_total fld' r c n
                  (clear_columns (selected r c (c + Z.of_nat n - 1) r) columns 0))
        as [fld2 Hl2]; [|done| |].
      * apply index_Some in Hr as [Hr0 Hr]. apply index_Some. split; [done|].
        rewrite Hspec, lookup_clear_cells, Hr. cbn. do 2 f_equal.
        f_equal. lia.
      * by rewrite length_clear_columns.
      * rewrite Hl2. f_equal.
        apply clear_loop_spec in Hl2 as ->. rewrite Hspec at 1.
        rewrite clear_cells_twice, Hspec. apply clear_cells_ext.
        intros i j _ _. apply orb_diag.
Qed.

(** ** Taking one cell, and the move that always exists *)

Lemma count_columns_none columns c0 :
  count_keep_columns (fun _ => false) columns c0 = 0.
Proof.
  revert c0. induction columns as [|b rest IH]; intros c0; [done|].
  cbn [count_keep_columns]. rewrite IH. by destruct b.
Qed.

Lemma count_columns_single columns c0 c :
  count_keep_columns (fun j => (c <=? j) && (j <=? c)) columns c0 =
  if decide (c0 <= c /\ columns !! Z.to_nat (c - c0) = Some true)
  then 1 else 0.
Proof.
  revert c0. induction columns as [|b rest IH]; intros c0.
  - cbn. destruct (decide _) as [[_ ?]|]; done.
  - cbn [count_keep_columns]. rewrite IH.
    destruct (decide (c = c0)) as [->|Hne].
    + rewrite Z.leb_refl, Z.sub_diag. change (Z.to_nat 0) with 0%nat.
      cbn [lookup list_lookup].
      destruct b; repeat case_decide; try done; decide_contra.
    + replace (b && ((c <=? c0) && (c0 <=? c))) with false.
      2: { symmetry. apply andb_false_intro2.
           destruct (c <=? c0) eqn:E1, (c0 <=? c) eqn:E2; try done.
           bool_to_prop. lia. }
      destruct (decide (c0 < c)) as [Hlt|Hge].
      * replace (Z.to_nat (c - c0)) with (S (Z.to_nat (c - (c0 + 1)))) by lia.
        cbn [lookup list_lookup].
        repeat case_decide; try done; decide_contra.
      * repeat case_decide; try done; decide_contra.
Qed.

Lemma count_single fld r0 mr c :
  count_keep (selected mr c c) fld r0 =
  if decide (r0 <= mr /\ 0 <= c /\
             fld !! Z.to_nat (mr - r0) ≫= (.!! Z.to_nat c) = Some true)
  then 1 else 0.
Proof.
  revert r0. induction fld as [|columns rest IH]; intros r0.
  - cbn. destruct (decide _) as [(_ & _ & ?)|]; done.
  - cbn [count_keep]. rewrite IH.
    destruct (decide (r0 = mr)) as [->|Hne].
    + rewrite (count_keep_columns_ext _ (fun j => (c <=? j) && (j <=? c))).
      2: { intros j. unfold selected. by rewrite Z.eqb_refl. }
      rewrite count_columns_single, Z.sub_diag, Z.sub_0_r.
      change (Z.to_nat 0) with 0%nat.
      cbn [lookup list_lookup mbind option_bind].
      repeat case_decide; try done; decide_contra.
    + rewrite (count_keep_columns_ext _ (fun _ => false)).
      2: { intros j. unfold selected.
           by replace (r0 =? mr) with false by (symmetry; by apply Z.eqb_neq). }
      rewrite count_columns_none.
      destruct (decide (r0 < mr)) as [Hlt|Hge].
      * replace (Z.to_nat (mr - r0)) with (S (Z.to_nat (mr - (r0 + 1)))) by lia.
        cbn [lookup list_lookup].
        repeat case_decide; try done; decide_contra.
      * repeat case_decide; try done; decide_contra.
Qed.

(** Clearing one present cell leaves one cell less. *)
Lemma available_clear_one fld r c :
  cell fld r c = Some true ->
  available (clear_cells (selected r c c) fld 0) = available fld - 1.
Proof.
  intros (columns & [Hr0 Hr]%index_Some & [Hc0 Hc]%index_Some)%cell_Some.
  rewrite available_clear_cells, (available_count fld),
    (count_keep_split (selected r c c) fld 0), count_single.
  rewrite decide_True; [lia|]. split; [done|]. split; [done|].
  rewrite Z.sub_0_r, Hr. done.
Qed.

Lemma wf_with_row m r : wf m -> 0 <= r < rows m -> wf (with_row m r).
Proof.
  intros (? & [? ?] & ?) ?. split; [done|]. split; [|done]. by split.
Qed.

Lemma wf_with_col m c : wf m -> 0 <= c < cols m -> wf (with_col m c).
Proof.
  intros (? & [? ?] & ?) ?. split; [done|]. split; [|done]. by split.
Qed.

(** On a well-formed state with no selection and the cursor on a present
    cell while two cells or more are present, select then enter takes that
    cell. *)
Lemma take_cell_run m :
  wf m -> marked_columns m = [] ->
  cell (field m) (row m) (col m) = Some true ->
  2 <= available (field m) ->
  run m (press [" "; "enter"]%string) =
  Some (after_move (with_marked_columns (with_marked_row m (row m))
                      [col m; col m])
          (clear_cells (selected (row m) (col m) (col m)) (field m) 0)).
Proof.
  intros Hwf Hmc Hcell Hav. unfold press. cbn [fmap list_fmap run].
  rewrite Update_space, Update_Select_fresh by auto.
  rewrite Update_enter.
  set (m1 := with_marked_columns (with_marked_row m (row m)) [col m; col m]).
  assert (wf m1) as Hwf1.
  { eapply (Update_Select_preserves_wf m m1 CmdNil); [done|].
    by apply Update_Select_fresh; auto. }
  rewrite (Update_Submit_move m1 (col m) (col m) Hwf1 eq_refl); [done|].
  rewrite (available_after_move m1 (col m) (col m) [] eq_refl).
  cbn [m1 field marked_row with_marked_columns with_marked_row].
  rewrite available_clear_one by done. intros [=]. lia.
Qed.

(** X24 (taking one cell).  On a well-formed state with no selection, the
    cursor on a present cell and two cells or more present, the select key
    followed by the enter key takes exactly that cell: one cell less is
    present, the cell is absent, every other cell is as before, the cursor
    is back at (0,0), the selection is empty and the player is
    [player % 2 + 1]. *)
Theorem take_one_cell (m : model) :
  wf m -> marked_columns m = [] ->
  cell (field m) (row m) (col m) = Some true ->
  2 <= available (field m) ->
  exists m',
    run m (press [" "; "enter"]%string) = Some m' /\
    available (field m') = available (field m) - 1 /\
    cell (field m') (row m) (col m) = Some false /\
    (forall r c, ~ (r = row m /\ c = col m) ->
       cell (field m') r c = cell (field m) r c) /\
    row m' = 0 /\ col m' = 0 /\ marked_columns m' = [] /\
    player m' = Z.rem (player m) 2 + 1.
Proof.
  intros Hwf Hmc Hcell Hav. eexists. split; [by apply take_cell_run|].
  cbn [field row col marked_columns player after_move with_marked_columns
       with_marked_row].
  split; [by apply available_clear_one|]. split; [|split].
  - rewrite cell_clear_cells, Hcell. cbn. unfold selected.
    by rewrite Z.eqb_refl, Z.leb_refl.
  - intros r c Hne. rewrite cell_clear_cells.
    replace (selected (row m) (col m) (col m) r c) with false.
    + by destruct (cell (field m) r c).
    + symmetry. unfold selected.
      destruct (r =? row m) eqn:E1, (col m <=? c) eqn:E2,
        (c <=? col m) eqn:E3; try done. bool_to_prop. destruct Hne. lia.
  - repeat split. apply wrap_id. pose proof (rem_2_bounds (player m)).
    unfold int_min, int_max. lia.
Qed.

Lemma take_one_cell_witness :
  exists m',
    run (game_state (field session0) 3 0 0 [] 1) (press [" "; "enter"]%string)
      = Some m' /\
    available (field m') = available (field session0) - 1 /\
    cell (field m') 3 0 = Some false /\
    (forall r c, ~ (r = 3 /\ c = 0) ->
       cell (field m') r c = cell (field session0) r c) /\
    row m' = 0 /\ col m' = 0 /\ marked_columns m' = [] /\
    player m' = Z.rem 1 2 + 1.
Proof.
  apply (take_one_cell (game_state (field session0) 3 0 0 [] 1)).
  - unfold wf, shape_ok, cursor_ok, selection_ok, int_max. cbn.
    repeat split; try lia. repeat constructor.
  - reflexivity.
  - reflexivity.
  - vm_compute. discriminate.
Defined.

Lemma run_ups m n :
  wf m -> Z.of_nat n <= row m ->
  run m (replicate n (KeyMsg "up")) = Some (with_row m (row m - Z.of_nat n)).
Proof.
  revert m. induction n as [|n IH]; intros m Hwf Hn.
  - cbn. f_equal. symmetry. apply with_row_id. lia.
  - pose proof Hwf as ((_ & _ & Hr & _) & [Hrow _] & _).
    cbn [replicate run]. rewrite Update_up, (clamp_down _ (rows m)) by lia.
    rewrite IH; cbn [row with_row]; [|apply wf_with_row; [done|lia]|lia].
    rewrite with_row_twice. do 2 f_equal. lia.
Qed.

Lemma run_downs m n :
  wf m -> row m + Z.of_nat n <= rows m - 1 ->
  run m (replicate n (KeyMsg "down")) = Some (with_row m (row m + Z.of_nat n)).
Proof.
  revert m. induction n as [|n IH]; intros m Hwf Hn.
  - cbn. f_equal. symmetry. apply with_row_id. lia.
  - pose proof Hwf as ((_ & _ & Hr & _) & [Hrow _] & _).
    cbn [replicate run]. rewrite Update_down, clamp_up by lia.
    rewrite IH; cbn [row rows with_row]; [|apply wf_with_row; [done|lia]|lia].
    rewrite with_row_twice. do 2 f_equal. lia.
Qed.

Lemma run_lefts m n :
  wf m -> Z.of_nat n <= col m ->
  run m (replicate n (KeyMsg "left")) = Some (with_col m (col m - Z.of_nat n)).
Proof.
  revert m. induction n as [|n IH]; intros m Hwf Hn.
  - cbn. f_equal. symmetry. apply with_col_id. lia.
  - pose proof Hwf as ((_ & _ & _ & Hc) & [_ Hcol] & _).
    cbn [replicate run]. rewrite Update_left, (clamp_down _ (cols m)) by lia.
    rewrite IH; cbn [col with_col]; [|apply wf_with_col; [done|lia]|lia].
    rewrite with_col_twice. do 2 f_equal. lia.
Qed.

Lemma run_rights m n :
  wf m -> col m + Z.of_nat n <= cols m - 1 ->
  run m (replicate n (KeyMsg "right")) = Some (with_col m (col m + Z.of_nat n)).
Proof.
  revert m. induction n as [|n IH]; intros m Hwf Hn.
  - cbn. f_equal. symmetry. apply with_col_id. lia.
  - pose proof Hwf as ((_ & _ & _ & Hc) & [_ Hcol] & _).
    cbn [replicate run]. rewrite Update_right, clamp_up by lia.
    rewrite IH; cbn [col cols with_col]; [|apply wf_with_col; [done|lia]|lia].
    rewrite with_col_twice. do 2 f_equal. lia.
Qed.

Lemma no_quit_replicate n k :
  ~ In k (Keys (Quit keys)) -> no_quit (replicate n (KeyMsg k)).
Proof.
  intros Hk. apply Forall_forall. intros msg [-> _]%elem_of_replicate.
  by intros ? [= <-].
Qed.

Lemma no_quit_app a b : no_quit a -> no_quit b -> no_quit (a ++ b).
Proof. apply Forall_app_2. Qed.

Lemma no_quit_go_to m r c : no_quit (go_to m r c).
Proof.
  unfold go_to. repeat apply no_quit_app; apply no_quit_replicate;
    cbn; intuition discriminate.
Qed.

(** The cursor keys reach every cell of the board. *)
Lemma run_go_to m r c :
  wf m -> 0 <= r < rows m -> 0 <= c < cols m ->
  run m (go_to m r c) = Some (with_col (with_row m r) c).
Proof.
  intros Hwf Hr Hc. pose proof Hwf as (_ & [Hrow Hcol] & _).
  unfold go_to.
  rewrite run_app by (apply no_quit_replicate; cbn; intuition discriminate).
  rewrite run_ups by (done || lia). cbn [mbind option_bind].
  set (m1 := with_row m (row m - Z.of_nat (Z.to_nat (row m - r)))).
  assert (wf m1) as Hwf1 by (apply wf_with_row; [done|lia]).
  rewrite run_app by (apply no_quit_replicate; cbn; intuition discriminate).
  rewrite run_downs by (done || (cbn [m1 row rows with_row]; lia)).
  cbn [mbind option_bind].
  set (m2 := with_row m1 (row m1 + Z.of_nat (Z.to_nat (r - row m)))).
  assert (m2 = with_row m r) as ->.
  { unfold m2, m1. rewrite with_row_twice. cbn [row with_row]. f_equal. lia. }
  assert (wf (with_row m r)) as Hwf2 by (by apply wf_with_row).
  rewrite run_app by (apply no_quit_replicate; cbn; intuition discriminate).
  rewrite run_lefts by (done || (cbn [col with_row]; lia)).
  cbn [mbind option_bind col with_row].
  rewrite run_rights.
  - rewrite with_col_twice. cbn [col with_col]. do 2 f_equal. lia.
  - apply wf_with_col; [done|]. cbn [cols with_row]. lia.
  - cbn [col cols with_col with_row]. lia.
Qed.

(** A pending selection can always be cancelled: go to its low end, which
    is a present cell, and press select. *)
Lemma cancel_pending m :
  wf m -> ends_present m ->
  exists msgs mA,
    run m msgs = Some mA /\ no_quit msgs /\ wf mA /\
    field mA = field m /\ marked_columns mA = [] /\ player mA = player m.
Proof.
  intros Hwf Hends. pose proof Hwf as (Hshape & _ & Hsel).
  unfold selection_ok in Hsel. unfold ends_present in Hends.
  destruct (marked_columns m) as [|lo [|hi [|]]] eqn:Hmc; try done.
  - exists [], m. split; [done|]. split; [apply Forall_nil_2|]. done.
  - destruct Hends as [Hlo _].
    set (m1 := with_col (with_row m (marked_row m)) lo).
    assert (Update_Select m1 =
            Some (with_marked_columns (with_marked_row m1 (row m1)) [], CmdNil))
      as HU.
    { apply (Update_Select_cancel m1 lo hi []); cbn; try done. lia. }
    exists (go_to m (marked_row m) lo ++ [KeyMsg " "]),
      (with_marked_columns (with_marked_row m1 (row m1)) []).
    split; [|split; [|split]].
    + rewrite run_app by apply no_quit_go_to.
      rewrite run_go_to by (done || lia). cbn [mbind option_bind run].
      fold m1. by rewrite Update_space, HU.
    + apply no_quit_app; [apply no_quit_go_to|].
      repeat constructor. intros k [= <-]. cbn. intuition discriminate.
    + eapply (Update_Select_preserves_wf m1); [|exact HU].
      apply wf_with_col; [apply wf_with_row; [done|lia]|]. cbn. lia.
    + done.
Qed.

(** X25 (a move always exists).  In every reachable state with two cells
    or more present there are keys that play a move: after them one cell
    less is present and it is the other player's turn.  With the freeze on
    one cell, the game goes on exactly until one cell is left. *)
Theorem a_move_exists (m : model) :
  reachable m -> 2 <= available (field m) ->
  exists msgs m',
    run m msgs = Some m' /\
    available (field m') = available (field m) - 1 /\
    player m' = 3 - player m.
Proof.
  intros Hm Hav. destruct (reachable_wf m Hm) as [Hwf Hends].
  pose proof (reachable_player m Hm) as Hp.
  destruct (cancel_pending m Hwf Hends)
    as (msgsA & mA & HrunA & HnqA & HwfA & HfA & HmcA & HpA).
  destruct (available_pos (field mA)) as (r & c & Hcell); [rewrite HfA; lia|].
  pose proof (cell_bounds mA r c true HwfA Hcell) as [Hr Hc].
  set (mB := with_col (with_row mA r) c).
  assert (wf mB) as HwfB.
  { apply wf_with_col; [by apply wf_with_row|]. done. }
  exists (msgsA ++ go_to mA r c ++ press [" "; "enter"]%string). eexists.
  split; [|split].
  - rewrite run_app, HrunA by done. cbn [mbind option_bind].
    rewrite run_app by apply no_quit_go_to.
    rewrite run_go_to by done. cbn [mbind option_bind]. fold mB.
    apply take_cell_run; try done. cbn. by rewrite HfA.
  - cbn [field after_move]. cbn [mB field row col with_col with_row
      with_marked_columns with_marked_row].
    rewrite available_clear_one by done. by rewrite HfA.
  - rewrite player_after_move; cbn; rewrite HpA; [done|lia].
Qed.

Lemma a_move_exists_witness :
  exists msgs m',
    run on_gap msgs = Some m' /\
    available (field m') = available (field on_gap) - 1 /\
    player m' = 3 - player on_gap.
Proof.
  apply (a_move_exists on_gap).
  - apply (run_reachable session0 (press (gap_keys ++ [" "; "left"]%string)));
      [constructor|].
    vm_compute. reflexivity.
  - vm_compute. discriminate.
Defined.

(** * The frame *)

(** ** Indents and the cells of the board *)

Lemma pad_fits (w k : Z) :
  0 <= k -> k <= w <= max_window ->
  indent_String (to_uint (wrap (w - k)) / 2) = Some ((w - k) / 2).
Proof.
  unfold max_window. intros Hk Hw.
  rewrite to_uint_wrap, Z.mod_small by lia.
  unfold indent_String, maxAlloc.
  assert ((w - k) / 2 <= w - k) by (apply Z.div_le_upper_bound; lia).
  replace ((w - k) / 2 <=? 2 ^ 48) with true; [done|].
  symmetry. apply Z.leb_le. lia.
Qed.

Lemma pad_panics (w k : Z) :
  0 <= k <= 34 -> int_min <= w <= int_max -> w < k ->
  indent_String (to_uint (wrap (w - k)) / 2) = None.
Proof.
  unfold int_min, int_max. intros Hk Hw Hlt.
  rewrite to_uint_wrap.
  rewrite <- (Z_mod_plus_full (w - k) 1 (2 ^ 64)), Z.mod_small by lia.
  unfold indent_String, maxAlloc.
  assert (2 ^ 48 + 1 <= (w - k + 1 * 2 ^ 64) / 2)
    by (apply Z.div_le_lower_bound; lia).
  replace ((w - k + 1 * 2 ^ 64) / 2 <=? 2 ^ 48) with false; [done|].
  symmetry. apply Z.leb_gt. lia.
Qed.


Lemma indent_String_Some n x : indent_String n = Some x -> x = n.
Proof. unfold indent_String. by destruct (n <=? maxAlloc); intros [=]. Qed.

Lemma cells_total m :
  wf m ->
  is_Some (mapM (fun r => mapM (view_cell m r) (seqZ 0 (cols m)))
             (seqZ 0 (rows m))).
Proof.
  intros Hwf.
  apply mapM_is_Some_2, Forall_forall. intros r Hr%elem_of_seqZ.
  apply mapM_is_Some_2, Forall_forall. intros c Hc%elem_of_seqZ.
  apply view_cell_total; [done|lia..].
Qed.

Lemma cells_shape m cells :
  mapM (fun r => mapM (view_cell m r) (seqZ 0 (cols m))) (seqZ 0 (rows m))
  = Some cells ->
  0 <= rows m -> 0 <= cols m ->
  Z.of_nat (length cells) = rows m /\
  Forall (fun line => Z.of_nat (length line) = cols m) cells.
Proof.
  intros HM Hr Hc. split.
  - apply length_mapM in HM. rewrite <- HM, length_seqZ. lia.
  - apply Forall_forall. intros line Hline.
    apply list_elem_of_lookup in Hline as [i Hi].
    apply mapM_Some_1 in HM.
    destruct (Forall2_lookup_r _ _ _ _ _ HM Hi) as (r & _ & Hrow).
    apply length_mapM in Hrow. rewrite <- Hrow, length_seqZ. lia.
Qed.

Lemma mapM_seqZ_lookup {B : Type} (g : Z -> option B) (n : Z) (k : list B)
    (i : Z) :
  mapM g (seqZ 0 n) = Some k -> 0 <= i < n ->
  exists y, k !! Z.to_nat i = Some y /\ g i = Some y.
Proof.
  intros HM Hi. apply mapM_Some_1 in HM.
  assert (seqZ 0 n !! Z.to_nat i = Some i) as Hl.
  { rewrite lookup_seqZ_lt by lia. f_equal. lia. }
  destruct (Forall2_lookup_l _ _ _ _ _ HM Hl) as (y & Hy & Hg). eauto.
Qed.

(** The cells drawn depend on the game part of the model only. *)
Lemma cells_game_part m m' :
  game_part m = game_part m' ->
  mapM (fun r => mapM (view_cell m r) (seqZ 0 (cols m))) (seqZ 0 (rows m))
  = mapM (fun r => mapM (view_cell m' r) (seqZ 0 (cols m')))
      (seqZ 0 (rows m')).
Proof.
  destruct m, m'. unfold game_part. cbn. by intros [= -> -> -> -> -> -> -> ->].
Qed.

(** What a frame that [View] returns holds. *)
Lemma View_Some lib m f :
  View lib m = Some f ->
  mapM (fun r => mapM (view_cell m r) (seqZ 0 (cols m))) (seqZ 0 (rows m))
  = Some (game f) /\
  status f = (if available (field m) =? 1 then PlayerLost (player m)
              else PlayersTurn (player m)) /\
  title f = "== Nimm =="%string /\ margin f = 2 /\
  rules_limit f = wrap (width m - 12) /\ rules_indent f = 4 /\
  title_indent f = to_uint (wrap (width m - 11)) / 2 /\
  status_indent f = to_uint (wrap (width m - 15)) / 2 /\
  game_indent f = to_uint (wrap (width m - 24)) / 2 /\
  help_indent f = (if ShowAll (help m)
                   then to_uint (wrap (width m - 34)) / 2
                   else to_uint (wrap (width m - 24)) / 2).
Proof.
  unfold View. intros H.
  destruct (indent_String (to_uint (wrap (width m - 11)) / 2))
    as [tp|] eqn:Ht; [|done]. cbn [mbind option_bind] in H.
  destruct (indent_String (to_uint (wrap (width m - 15)) / 2))
    as [sp|] eqn:Hs; [|done]. cbn [mbind option_bind] in H.
  destruct (mapM _ _) as [cells|]; [|done]. cbn [mbind option_bind] in H.
  destruct (match cells with [] => _ | _ => _ end) as [gp|] eqn:Hg; [|done].
  cbn [mbind option_bind] in H.
  destruct (indent_String (if ShowAll (help m) then _ else _))
    as [hp|] eqn:Hh; [|done]. cbn [mbind option_bind] in H.
  destruct (strings_Repeat _) as [bl|]; [|done]. cbn [mbind option_bind] in H.
  destruct (indent_String 2); [|done]. cbn [mbind option_bind] in H.
  injection H as <-. cbn.
  apply indent_String_Some in Ht as ->. apply indent_String_Some in Hs as ->.
  apply indent_String_Some in Hh as ->.
  repeat split.
  destruct cells; [by injection Hg|by apply indent_String_Some in Hg].
Qed.

(** [View] panics in a window too narrow for one of its blocks. *)
Lemma View_narrow lib m :
  int_min <= width m <= int_max ->
  width m < 24 \/ (ShowAll (help m) = true /\ width m < 34) ->
  View lib m = None.
Proof.
  intros Hw Hn. unfold View.
  destruct (indent_String (to_uint (wrap (width m - 11)) / 2)); [|done].
  cbn [mbind option_bind].
  destruct (indent_String (to_uint (wrap (width m - 15)) / 2)); [|done].
  cbn [mbind option_bind].
  destruct (mapM _ _) as [cells|]; [|done]. cbn [mbind option_bind].
  destruct (match cells with [] => _ | _ => _ end); [|done].
  cbn [mbind option_bind].
  assert (indent_String (if ShowAll (help m)
                         then to_uint (wrap (width m - 34)) / 2
                         else to_uint (wrap (width m - 24)) / 2) = None)
    as ->; [|done].
  destruct (ShowAll (help m)); apply pad_panics; try lia;
    destruct Hn as [?|[? ?]]; first [lia | done].
Qed.

(** [View] returns in a window that holds all of its blocks. *)
Lemma View_returns lib m :
  lib_ok lib -> wf m -> rows m <= max_window ->
  24 <= width m <= max_window ->
  (ShowAll (help m) = true -> 34 <= width m) ->
  0 <= height m <= max_window ->
  exists f,
    View lib m = Some f /\
    title_indent f = (width m - 11) / 2 /\
    status_indent f = (width m - 15) / 2 /\
    game_indent f = (width m - 24) / 2 /\
    help_indent f = (width m - (if ShowAll (help m) then 34 else 24)) / 2 /\
    0 <= blank_lines f <= max_window.
Proof.
  intros [Hww Hhl] Hwf Hrows Hw Hsa Hh.
  pose proof Hwf as ((_ & _ & Hr & Hc) & _ & _).
  destruct (cells_total m Hwf) as [cells HM].
  destruct (cells_shape m cells HM) as [Hlen _]; [lia..|].
  unfold View.
  rewrite (pad_fits _ 11), (pad_fits _ 15) by lia. cbn [mbind option_bind].
  rewrite HM. cbn [mbind option_bind].
  destruct cells as [|line cells]; [cbn in Hlen; lia|].
  rewrite (pad_fits _ 24) by lia. cbn [mbind option_bind].
  assert (indent_String (if ShowAll (help m)
                         then to_uint (wrap (width m - 34)) / 2
                         else to_uint (wrap (width m - 24)) / 2)
          = Some ((width m - (if ShowAll (help m) then 34 else 24)) / 2))
    as ->.
  { destruct (ShowAll (help m)); apply pad_fits; try lia;
      specialize (Hsa eq_refl); lia. }
  cbn [mbind option_bind].
  specialize (Hww (wrap (width m - 12))). specialize (Hhl (help m)).
  unfold max_window, maxAlloc in *.
  set (cs := 6 + wordwrap_newlines lib (wrap (width m - 12))
             + Z.of_nat (length (line :: cells))) in *.
  assert (6 <= cs <= 6 + 2 ^ 48 + 65535) as Hcs by (unfold cs; lia).
  rewrite (wrap_id (height m - 4)) by (unfold int_min, int_max; lia).
  rewrite (wrap_id (height m - 4 - cs)) by (unfold int_min, int_max; lia).
  rewrite (wrap_id (height m - 4 - cs - help_newlines lib (help m)))
    by (unfold int_min, int_max; lia).
  set (hgt := height m - 4 - cs - help_newlines lib (help m)).
  assert (hgt <= 65535) by (unfold hgt; lia).
  unfold strings_Repeat, maxAlloc.
  destruct (hgt <? 0) eqn:E; bool_to_prop.
  - cbn. eexists. split; [done|]. cbn. repeat split; lia.
  - replace (hgt <? 0) with false by (symmetry; apply Z.ltb_ge; lia).
    replace (hgt <=? 2 ^ 48) with true by (symmetry; apply Z.leb_le; lia).
    cbn. eexists. split; [done|]. cbn. repeat split; lia.
Qed.

Lemma lib_ok_sample : lib_ok sample_lib.
Proof.
  unfold lib_ok, maxAlloc. cbn. split; [lia|].
  intros h. destruct (ShowAll h); lia.
Qed.



(** ** The claim on centering *)




(** ** More on the frame *)

(** X12 (resize).  Whatever the state, a resize message stores the new
    width and height and keeps the game: when [View] returns a frame before
    and after it, the two frames have the same board, status line, title and
    margin.  A resize to fewer than 24 columns makes [View] panic, whatever
    the state was; of two resizes in a row the second one wins. *)
Theorem resize_keeps_game (lib : layout_libs) (m : model) (w h : Z) :
  Update m (WindowSizeMsg w h) = Some (with_size m w h, CmdNil) /\
  game_part (with_size m w h) = game_part m /\
  (forall f f',
     View lib m = Some f -> View lib (with_size m w h) = Some f' ->
     game f' = game f /\ status f' = status f /\ title f' = title f /\
     margin f' = margin f) /\
  (int_min <= w <= int_max -> w < 24 -> View lib (with_size m w h) = None) /\
  (forall w2 h2,
     run m [WindowSizeMsg w h; WindowSizeMsg w2 h2]
     = run m [WindowSizeMsg w2 h2]).
Proof.
  split; [done|]. split; [done|]. split; [|split; [|done]].
  - intros f f' HV HV'.
    destruct (View_Some _ _ _ HV) as (HM & Hst & Ht & Hma & _).
    destruct (View_Some _ _ _ HV') as (HM' & Hst' & Ht' & Hma' & _).
    rewrite (cells_game_part (with_size m w h) m eq_refl), HM in HM'.
    injection HM' as <-. by rewrite Hst, Hst', Ht, Ht', Hma, Hma'.
  - intros Hw Hlt. apply View_narrow; cbn; [done|by left].
Qed.

(** X19 (the board as drawn).  In every reachable state whose window has 24
    to 65535 columns (34 or more when the help is expanded) and at most
    65535 rows, [View] returns a frame whose board has 4 lines of 7 cells;
    the cell drawn at [(r, c)] shows X exactly when the cell is present and
    a blank when it is absent, has the cursor style exactly at the cursor,
    and has the selection style exactly when [r] is [marked_row] and [c]
    lies in the selected range; the status line says lost exactly when one
    cell is present. *)
Theorem View_draws_the_board (lib : layout_libs) (m : model) :
  lib_ok lib -> reachable m ->
  24 <= width m <= max_window ->
  (ShowAll (help m) = true -> 34 <= width m) ->
  0 <= height m <= max_window ->
  exists f,
    View lib m = Some f /\
    length (game f) = 4%nat /\
    Forall (fun line => length line = 7%nat) (game f) /\
    (status f = PlayerLost (player m) <-> available (field m) = 1) /\
    (forall r c, 0 <= r < 4 -> 0 <= c < 7 ->
       exists line cv,
         game f !! Z.to_nat r = Some line /\ line !! Z.to_nat c = Some cv /\
         (mark cv = "X"%string <-> cell (field m) r c = Some true) /\
         (mark cv = " "%string <-> cell (field m) r c = Some false) /\
         (cursor_style cv = true <-> r = row m /\ c = col m) /\
         (marked_style cv = true <->
          r = marked_row m /\
          exists lo hi, marked_columns m = [lo; hi] /\ lo <= c <= hi)).
Proof.
  intros Hlib Hm Hw Hsa Hh.
  destruct (reachable_wf m Hm) as [Hwf _].
  pose proof (reachable_board m Hm) as (Hrows & Hcols & _).
  destruct (View_returns lib m Hlib Hwf) as (f & HV & _);
    try done; [unfold max_window; lia|].
  exists f. split; [done|].
  destruct (View_Some lib m f HV) as (HM & Hst & _).
  pose proof Hwf as (_ & _ & Hsel).
  destruct (cells_shape m (game f) HM) as [Hlen Hlines]; [lia..|].
  split; [lia|]. split; [|split].
  - eapply Forall_impl; [exact Hlines|]. intros line Hl. cbn in Hl. lia.
  - rewrite Hst.
    destruct (available (field m) =? 1) eqn:E; bool_to_prop; by split.
  - intros r c Hrb Hcb.
    destruct (mapM_seqZ_lookup _ _ _ r HM) as (line & Hline & Hrow); [lia|].
    destruct (mapM_seqZ_lookup _ _ _ c Hrow) as (cv & Hcv & Hcell); [lia|].
    exists line, cv. split; [done|]. split; [done|].
    unfold view_cell in Hcell. unfold cell.
    destruct (index (field m) r) as [columns|]; [|done].
    cbn [mbind option_bind] in *.
    destruct (index columns c) as [b|]; [|done].
    cbn [mbind option_bind] in Hcell. injection Hcell as <-.
    cbn [mark cursor_style marked_style].
    split; [|split; [|split]].
    + by destruct b.
    + by destruct b.
    + rewrite andb_true_iff, !Z.eqb_eq. done.
    + rewrite andb_true_iff, Z.eqb_eq, contains_iff.
      unfold selection_ok in Hsel.
      destruct (marked_columns m) as [|lo [|hi [|]]]; try done.
      * split; [by intros [_ [?|(? & ? & ? & _)]]|].
        by intros [_ (? & ? & ? & _)].
      * split.
        -- intros [? [?|?]]; done.
        -- intros [? ?]. split; [done|]. by right.
Qed.

Lemma View_draws_the_board_witness :
  exists f,
    View sample_lib on_gap = Some f /\
    length (game f) = 4%nat /\
    Forall (fun line => length line = 7%nat) (game f) /\
    (status f = PlayerLost (player on_gap) <-> available (field on_gap) = 1) /\
    (forall r c, 0 <= r < 4 -> 0 <= c < 7 ->
       exists line cv,
         game f !! Z.to_nat r = Some line /\ line !! Z.to_nat c = Some cv /\
         (mark cv = "X"%string <-> cell (field on_gap) r c = Some true) /\
         (mark cv = " "%string <-> cell (field on_gap) r c = Some false) /\
         (cursor_style cv = true <-> r = row on_gap /\ c = col on_gap) /\
         (marked_style cv = true <->
          r = marked_row on_gap /\
          exists lo hi, marked_columns on_gap = [lo; hi] /\ lo <= c <= hi)).
Proof.
  apply (View_draws_the_board sample_lib on_gap).
  - unfold lib_ok, maxAlloc. cbn. split; [lia|].
    intros h. destruct (ShowAll h); lia.
  - apply (run_reachable session0 (press (gap_keys ++ [" "; "left"]%string)));
      [constructor|].
    vm_compute. reflexivity.
  - unfold max_window. cbn. lia.
  - cbn. discriminate.
  - unfold max_window. cbn. lia.
Defined.

(** X26 (the help key and the frame).  In every reachable state with the
    help collapsed, in a window of 24 to 65535 columns and at most 65535
    rows, [View] returns a frame with the help indented by
    [(width - 24) / 2].  After the help key, which expands the help: from 34
    columns on [View] returns a frame that differs in the help indent, now
    [(width - 34) / 2], five columns less, with the same title, status line,
    board and indents of these; below 34 columns [View] panics. *)
Theorem help_key_and_frame (lib : layout_libs) (m : model) :
  lib_ok lib -> reachable m ->
  ShowAll (help m) = false ->
  24 <= width m <= max_window ->
  0 <= height m <= max_window ->
  Update m (KeyMsg "?") = Some (with_ShowAll m true, CmdNil) /\
  exists f,
    View lib m = Some f /\
    help_indent f = (width m - 24) / 2 /\
    (width m < 34 -> View lib (with_ShowAll m true) = None) /\
    (34 <= width m ->
     exists f',
       View lib (with_ShowAll m true) = Some f' /\
       help_indent f' = (width m - 34) / 2 /\
       help_indent f' = help_indent f - 5 /\
       title_indent f' = title_indent f /\
       status_indent f' = status_indent f /\
       game_indent f' = game_indent f /\
       status f' = status f /\ game f' = game f).
Proof.
  intros Hlib Hm Hsa Hw Hh.
  destruct (reachable_wf m Hm) as [Hwf _].
  pose proof (reachable_board m Hm) as (Hrows & Hcols & _).
  split.
  { change (Update m (KeyMsg "?"))
      with (Some (with_ShowAll m (negb (ShowAll (help m))), CmdNil)).
    by rewrite Hsa. }
  destruct (View_returns lib m Hlib Hwf) as (f & HV & Ht & Hs & Hg & Hhi & _);
    try done; [unfold max_window; lia|by rewrite Hsa|].
  rewrite Hsa in Hhi.
  exists f. split; [done|]. split; [done|]. split.
  - intros Hlt. apply View_narrow; cbn.
    + unfold int_min, int_max, max_window in *. lia.
    + by right.
  - intros Hge.
    assert (wf (with_ShowAll m true)) as Hwf' by done.
    destruct (View_returns lib (with_ShowAll m true) Hlib Hwf')
      as (f' & HV' & Ht' & Hs' & Hg' & Hhi' & _);
      try done; [cbn; unfold max_window; lia|].
    cbn in Ht', Hs', Hg', Hhi'.
    exists f'. split; [done|].
    destruct (View_Some _ _ _ HV) as (HM & Hst & _).
    destruct (View_Some _ _ _ HV') as (HM' & Hst' & _).
    rewrite (cells_game_part (with_ShowAll m true) m eq_refl), HM in HM'.
    injection HM' as <-.
    rewrite Ht, Ht', Hs, Hs', Hg, Hg', Hhi, Hhi', Hst, Hst'.
    repeat split.
    replace (width m - 34) with (width m - 24 + (-5) * 2) by lia.
    rewrite Z.div_add by lia. lia.
Qed.

Lemma help_key_and_frame_witness :
  Update session0 (KeyMsg "?") = Some (with_ShowAll session0 true, CmdNil) /\
  exists f,
    View sample_lib session0 = Some f /\
    help_indent f = (width session0 - 24) / 2 /\
    (width session0 < 34 ->
     View sample_lib (with_ShowAll session0 true) = None) /\
    (34 <= width session0 ->
     exists f',
       View sample_lib (with_ShowAll session0 true) = Some f' /\
       help_indent f' = (width session0 - 34) / 2 /\
       help_indent f' = help_indent f - 5 /\
       title_indent f' = title_indent f /\
       status_indent f' = status_indent f /\
       game_indent f' = game_indent f /\
       status f' = status f /\ game f' = game f).
Proof.
  apply (help_key_and_frame sample_lib session0).
  - unfold lib_ok, maxAlloc. cbn. split; [lia|].
    intros h. destruct (ShowAll h); lia.
  - constructor.
  - reflexivity.
  - unfold max_window. cbn. lia.
  - unfold max_window. cbn. lia.
Defined.

(** X27 (when [View] panics).  In every reachable state whose window
    reports at most 65535 columns and rows, [View] returns a frame exactly
    when the window has 24 columns or more, and 34 or more when the help is
    expanded; in a narrower window the unsigned difference [width - k]
    wraps around and the indent makes the run time panic. *)
Theorem View_returns_iff (lib : layout_libs) (m : model) :
  lib_ok lib -> reachable m ->
  int_min <= width m <= max_window ->
  0 <= height m <= max_window ->
  (is_Some (View lib m) <->
   24 <= width m /\ (ShowAll (help m) = true -> 34 <= width m)).
Proof.
  intros Hlib Hm Hw Hh.
  destruct (reachable_wf m Hm) as [Hwf _].
  pose proof (reachable_board m Hm) as (Hrows & Hcols & _).
  split.
  - intros [f HV].
    destruct (decide (24 <= width m)) as [H24|H24].
    + split; [done|]. intros Hsa.
      destruct (decide (34 <= width m)) as [|H34]; [done|].
      rewrite View_narrow in HV; [done| |right; split; [done|lia]].
      unfold int_max, max_window in *. lia.
    + rewrite View_narrow in HV; [done| |left; lia].
      unfold int_max, max_window in *. lia.
  - intros [H24 Hsa].
    assert (exists f, View lib m = Some f) as [f HV]; [|by exists f].
    destruct (View_returns lib m Hlib Hwf) as (f & HV & _);
      try done; try (unfold max_window in *; lia).
    by exists f.
Qed.

Lemma View_returns_iff_witness :
  is_Some (View sample_lib narrow) <->
  24 <= width narrow /\ (ShowAll (help narrow) = true -> 34 <= width narrow).
Proof.
  apply (View_returns_iff sample_lib narrow).
  - unfold lib_ok, maxAlloc. cbn. split; [lia|].
    intros h. destruct (ShowAll h); lia.
  - apply (reachable_step session0 (WindowSizeMsg 20 24) narrow CmdNil);
      [constructor|reflexivity].
  - unfold int_min, max_window. cbn. lia.
  - unfold max_window. cbn. lia.
Defined.
